(** * Bucket-size arithmetic of [helpers/multiaspect/image.py]

    A shallow embedding of [MultiaspectImage]: the alignment rounder, the
    oversize check, the edge-based and the area-based sizer, the interval
    adjuster and the aspect-ratio calculator, with the properties the
    specification states about them.

    Python [int] is [Z].  Python [float] is IEEE 754 binary64, here the
    Standard Library's [spec_float] at precision 53 and maximal exponent 1024,
    whose operations are plain functions on [Z] and compute.  Exceptions are
    values of an error type.  The process-wide resolution cache of
    [StateTracker] is threaded through the area sizer as explicit state.
    Logging is left out, and with it the [np.isclose] test of line 145, which
    only guards a log line.  An [np.float64] aspect ratio is taken as the
    [float] of the same value. *)

From Stdlib Require Import ZArith Lia Bool List String.
From Stdlib Require Import SpecFloat.
Import ListNotations.
Local Open Scope Z_scope.

(** ** Exceptions and results *)

Inductive pyerr : Type :=
| ValueError
| ZeroDivisionError
| OverflowError.

Inductive res (A : Type) : Type :=
| Ok (a : A)
| Err (e : pyerr).
Arguments Ok {A} a.
Arguments Err {A} e.

Definition res_bind {A B : Type} (r : res A) (k : A -> res B) : res B :=
  match r with
  | Ok a => k a
  | Err e => Err e
  end.

Declare Scope res_scope.
Delimit Scope res_scope with res.
Notation "x <- r ;; k" := (res_bind r (fun x => k))
  (at level 61, r at next level, right associativity) : res_scope.
Notation "' p <- r ;; k" := (res_bind r (fun p => k))
  (at level 61, p pattern, r at next level, right associativity) : res_scope.

(** ** binary64 *)

Module F64.

Definition prec : Z := 53.
Definition emax : Z := 1024.

Definition float : Type := spec_float.

Definition mul : float -> float -> float := SFmul prec emax.
Definition div : float -> float -> float := SFdiv prec emax.
Definition sqrt : float -> float := SFsqrt prec emax.
Definition eqb : float -> float -> bool := SFeqb.

(** The float nearest to an integer (ties to even); an infinity when the
    integer is out of range. *)
Definition of_Z (z : Z) : float := binary_normalize prec emax z 0 false.

(** An integer as an exact, not normalised, mantissa with exponent 0, with
    the sign of a zero given apart.  [div] of two of them is the correctly
    rounded quotient of the integers. *)
Definition exact (s : bool) (z : Z) : float :=
  match z with
  | Z0 => S754_zero s
  | Zpos p => S754_finite false p 0
  | Zneg p => S754_finite true p 0
  end.

Definition one : float := of_Z 1.
Definition million : float := of_Z 1000000.

Definition is_zero (x : float) : bool :=
  match x with
  | S754_zero _ => true
  | _ => false
  end.

Definition is_finite (x : float) : bool :=
  match x with
  | S754_zero _ | S754_finite _ _ _ => true
  | _ => false
  end.

Definition sign (x : float) : bool :=
  match x with
  | S754_zero s | S754_infinity s | S754_finite s _ _ => s
  | S754_nan => false
  end.

(** The exact value of a finite float as a fraction [n / d] with [d] a
    positive power of two. *)
Definition frac (x : float) : option (Z * Z) :=
  match x with
  | S754_zero _ => Some (0, 1)
  | S754_finite s m e =>
      Some (if 0 <=? e
            then (cond_Zopp s (Zpos m) * 2 ^ e, 1)
            else (cond_Zopp s (Zpos m), 2 ^ (- e)))
  | _ => None
  end.

(** The integer nearest to [n / d], ties to the even one ([0 < d]). *)
Definition rne_div (n d : Z) : Z :=
  let q := n / d in
  match 2 * (n mod d) ?= d with
  | Lt => q
  | Gt => q + 1
  | Eq => if Z.even q then q else q + 1
  end.

(** [compare z x] orders the integer [z] and the float [x] by their exact
    values; [None] when [x] is a nan. *)
Definition Zcompare (z : Z) (x : float) : option comparison :=
  match x with
  | S754_nan => None
  | S754_infinity s => Some (if s then Gt else Lt)
  | _ => match frac x with
         | Some (n, d) => Some (z * d ?= n)
         | None => None
         end
  end.

End F64.

Definition float : Type := F64.float.

(** ** Python numbers and their operators *)

Inductive pynum : Type :=
| PyInt (z : Z)
| PyFloat (x : float).

Local Open Scope res_scope.

(** [float(z)]: raises when the integer is too large. *)
Definition float_of_int (z : Z) : res float :=
  let x := F64.of_Z z in
  if F64.is_finite x then Ok x else Err OverflowError.

Definition to_float (v : pynum) : res float :=
  match v with
  | PyInt z => float_of_int z
  | PyFloat x => Ok x
  end.

(** [a / b] on two integers: the correctly rounded quotient. *)
Definition int_truediv (a b : Z) : res float :=
  if b =? 0 then Err ZeroDivisionError
  else
    let x := F64.div (F64.exact false a) (F64.exact false b) in
    if F64.is_finite x then Ok x else Err OverflowError.

(** [x / y] on two floats. *)
Definition float_truediv (x y : float) : res float :=
  if F64.is_zero y then Err ZeroDivisionError else Ok (F64.div x y).

(** [a / b] on any two numbers: both integers, or both taken to floats. *)
Definition py_truediv (a b : pynum) : res float :=
  match a, b with
  | PyInt x, PyInt y => int_truediv x y
  | _, _ =>
      x <- to_float a ;;
      y <- to_float b ;;
      float_truediv x y
  end.

(** [a * y] with a float [y]. *)
Definition py_mul_float (a : pynum) (y : float) : res float :=
  x <- to_float a ;;
  Ok (F64.mul x y).

(** [math.sqrt(x)]. *)
Definition py_sqrt (x : float) : res float :=
  match x with
  | S754_finite true _ _ | S754_infinity true => Err ValueError
  | _ => Ok (F64.sqrt x)
  end.

(** [int(x)]: truncation towards zero. *)
Definition py_int (x : float) : res Z :=
  match x with
  | S754_nan => Err ValueError
  | S754_infinity _ => Err OverflowError
  | _ => match F64.frac x with
         | Some (n, d) => Ok (Z.quot n d)
         | None => Err ValueError
         end
  end.

(** [round(x)]: the nearest integer, ties to even. *)
Definition py_round (x : float) : res Z :=
  match x with
  | S754_nan => Err ValueError
  | S754_infinity _ => Err OverflowError
  | _ => match F64.frac x with
         | Some (n, d) => Ok (F64.rne_div n d)
         | None => Err ValueError
         end
  end.

(** [round(x, ndigits)]: the float nearest to the decimal rounding of the
    exact value of [x] (ties to even); nans, infinities and zeros round to
    themselves. *)
Definition py_round_ndigits (x : float) (ndigits : Z) : res float :=
  match F64.frac x with
  | None => Ok x
  | Some (n, d) =>
      if F64.is_zero x then Ok x
      else
        let y :=
          if 0 <=? ndigits
          then F64.div (F64.exact (F64.sign x) (F64.rne_div (n * 10 ^ ndigits) d))
                       (F64.exact false (10 ^ ndigits))
          else binary_normalize F64.prec F64.emax
                 (F64.rne_div n (d * 10 ^ (- ndigits)) * 10 ^ (- ndigits)) 0 (F64.sign x) in
        if F64.is_finite y then Ok y else Err OverflowError
  end.

(** [z > v], [z < v] and [a == b], by exact values. *)
Definition int_compare (z : Z) (v : pynum) : option comparison :=
  match v with
  | PyInt y => Some (z ?= y)
  | PyFloat x => F64.Zcompare z x
  end.

Definition int_gt (z : Z) (v : pynum) : bool :=
  match int_compare z v with
  | Some Gt => true
  | _ => false
  end.

Definition py_eqb (a b : pynum) : bool :=
  match a, b with
  | PyInt x, PyInt y => x =? y
  | PyInt x, PyFloat y | PyFloat y, PyInt x =>
      match F64.Zcompare x y with
      | Some Eq => true
      | _ => false
      end
  | PyFloat x, PyFloat y => F64.eqb x y
  end.

(** ** Configuration and the resolution cache *)

(** [StateTracker.get_args()]: the two settings the module reads. *)
Record args : Type := {
  aspect_bucket_alignment : Z;
  aspect_bucket_rounding : option Z
}.

Definition size : Type := (Z * Z)%type.

Module StateTracker.

(** Modelled from the spec: [StateTracker.get_resolution_by_aspect] and
    [StateTracker.set_resolution_by_aspect] live in
    [helpers/training/state_tracker.py].  The cache is a mapping keyed by
    the pair of the resolution value and the rounded aspect ratio, to the
    target size assigned to that pair; keys are looked up by Python's [==]. *)
Definition resolution_cache : Type := list ((pynum * float) * size).

Definition key_eqb (k1 k2 : pynum * float) : bool :=
  py_eqb (fst k1) (fst k2) && F64.eqb (snd k1) (snd k2).

Fixpoint get_resolution_by_aspect (c : resolution_cache)
    (dataloader_resolution : pynum) (aspect : float) : option size :=
  match c with
  | [] => None
  | (k, v) :: c' =>
      if key_eqb k (dataloader_resolution, aspect) then Some v
      else get_resolution_by_aspect c' dataloader_resolution aspect
  end.

Fixpoint set_resolution_by_aspect (c : resolution_cache)
    (dataloader_resolution : pynum) (aspect : float) (resolution : size)
    : resolution_cache :=
  match c with
  | [] => [((dataloader_resolution, aspect), resolution)]
  | (k, v) :: c' =>
      if key_eqb k (dataloader_resolution, aspect) then (k, resolution) :: c'
      else (k, v) :: set_resolution_by_aspect c' dataloader_resolution aspect resolution
  end.

End StateTracker.

Import StateTracker.

(** Computations that may raise and that read and write the cache.  A raise
    leaves the cache as it was at that point. *)
Definition M (A : Type) : Type := resolution_cache -> res A * resolution_cache.

Definition M_ret {A : Type} (a : A) : M A := fun c => (Ok a, c).

Definition M_bind {A B : Type} (m : M A) (k : A -> M B) : M B :=
  fun c =>
    match m c with
    | (Ok a, c') => k a c'
    | (Err e, c') => (Err e, c')
    end.

Definition M_lift {A : Type} (r : res A) : M A := fun c => (r, c).

Definition M_get (dataloader_resolution : pynum) (aspect : float) : M (option size) :=
  fun c => (Ok (get_resolution_by_aspect c dataloader_resolution aspect), c).

Definition M_set (dataloader_resolution : pynum) (aspect : float) (resolution : size)
    : M unit :=
  fun c => (Ok tt, set_resolution_by_aspect c dataloader_resolution aspect resolution).

Declare Scope M_scope.
Delimit Scope M_scope with M.
Notation "x <- m ;; k" := (M_bind m (fun x => k))
  (at level 61, m at next level, right associativity) : M_scope.
Notation "' p <- m ;; k" := (M_bind m (fun p => k))
  (at level 61, p pattern, m at next level, right associativity) : M_scope.

(** ** The module *)

(** What [calculate_image_aspect_ratio] is given: a PIL image, a tuple or a
    list, a float, or anything else with a [size]. *)
Inductive image_arg : Type :=
| ImgImage (image_size : size)
| ImgTuple (wh : size)
| ImgFloat (x : float)
| ImgOther (image_size : size).

Module MultiaspectImage.

Definition _round_to_nearest_multiple (cfg : args) (value : pynum) : res Z :=
  let multiple := aspect_bucket_alignment cfg in
  q <- py_truediv value (PyInt multiple) ;;
  n <- py_round q ;;
  let rounded := n * multiple in
  Ok (Z.max rounded multiple).

Definition is_image_too_large (image_size : size) (resolution : pynum)
    (resolution_type : string) : res bool :=
  if String.eqb resolution_type "pixel" then
    Ok (int_gt (fst image_size) resolution || int_gt (snd image_size) resolution)
  else if String.eqb resolution_type "area" then
    let image_area := fst image_size * snd image_size in
    target_area <- py_mul_float resolution F64.million ;;
    Ok (int_gt image_area (PyFloat target_area))
  else Err ValueError.

Definition calculate_image_aspect_ratio (cfg : args) (image : image_arg)
    (rounding : Z) : res float :=
  let to_round :=
    match aspect_bucket_rounding cfg with
    | None => rounding
    | Some r => r
    end in
  match image with
  | ImgFloat x => py_round_ndigits x to_round
  | ImgImage (width, height) | ImgTuple (width, height)
  | ImgOther (width, height) =>
      q <- int_truediv width height ;;
      py_round_ndigits q to_round
  end.

(** The default of the [rounding] parameter. *)
Definition default_rounding : Z := 2.

Definition calculate_new_size_by_pixel_edge (cfg : args)
    (aspect_ratio resolution : pynum) (original_size : size)
    : res (size * size * float) :=
  match aspect_ratio, resolution with
  | PyInt _, _ => Err ValueError
  | PyFloat _, PyFloat _ => Err ValueError
  | PyFloat aspect_ratio, PyInt resolution =>
      let '(W_original, H_original) := original_size in
      '(W_initial, H_initial) <-
        (if W_original <? H_original then
           let W_initial := resolution in
           q <- py_truediv (PyInt W_initial) (PyFloat aspect_ratio) ;;
           H_initial <- py_int q ;;
           Ok (W_initial, H_initial)
         else
           let H_initial := resolution in
           p <- py_mul_float (PyInt H_initial) aspect_ratio ;;
           W_initial <- py_int p ;;
           Ok (W_initial, H_initial)) ;;
      W_adjusted <- _round_to_nearest_multiple cfg (PyInt W_initial) ;;
      H_adjusted <- _round_to_nearest_multiple cfg (PyInt H_initial) ;;
      let '(W_initial, H_initial) :=
        if (W_initial <? W_adjusted) || (H_initial <? H_adjusted) then
          let reformed_W_diff := W_adjusted - W_initial in
          let reformed_H_diff := H_adjusted - H_initial in
          let bigger_difference := Z.max reformed_W_diff reformed_H_diff in
          (W_initial + bigger_difference, H_initial + bigger_difference)
        else (W_initial, H_initial) in
      adjusted_aspect_ratio <-
        calculate_image_aspect_ratio cfg (ImgTuple (W_adjusted, H_adjusted))
          default_rounding ;;
      Ok ((W_adjusted, H_adjusted), (W_initial, H_initial), adjusted_aspect_ratio)
  end.

(** Lines 111-116: the square edge of the requested area. *)
Definition square_edge (cfg : args) (megapixels : pynum) : res Z :=
  target_pixel_area <- py_mul_float megapixels F64.million ;;
  root <- py_sqrt target_pixel_area ;;
  edge <- py_int root ;;
  _round_to_nearest_multiple cfg (PyInt edge).

(** Lines 134-143: the target size computed from the edge and the aspect
    ratio, and its rounded aspect ratio.  The megapixel count of line 140
    is only logged, but its division can raise. *)
Definition computed_target (cfg : args) (aspect_ratio : float)
    (target_pixel_edge : Z) : res (Z * Z * float) :=
  s <- py_sqrt aspect_ratio ;;
  w <- py_mul_float (PyInt target_pixel_edge) s ;;
  W_target <- _round_to_nearest_multiple cfg (PyFloat w) ;;
  s' <- py_sqrt aspect_ratio ;;
  h <- py_truediv (PyInt target_pixel_edge) (PyFloat s') ;;
  H_target <- _round_to_nearest_multiple cfg (PyFloat h) ;;
  calculated_resulting_megapixels <-
    py_truediv (PyInt (W_target * H_target)) (PyFloat F64.million) ;;
  target_aspect_ratio <-
    calculate_image_aspect_ratio cfg (ImgTuple (W_target, H_target))
      default_rounding ;;
  Ok (W_target, H_target, target_aspect_ratio).

(** Lines 151-156: the intermediary size before any repair. *)
Definition first_intermediary (aspect_ratio : float) (W_target H_target : Z)
    : res (Z * Z) :=
  if W_target <? H_target then
    let W_intermediary := W_target in
    q <- py_truediv (PyInt W_intermediary) (PyFloat aspect_ratio) ;;
    H_intermediary <- py_int q ;;
    Ok (W_intermediary, H_intermediary)
  else
    let H_intermediary := H_target in
    p <- py_mul_float (PyInt H_intermediary) aspect_ratio ;;
    W_intermediary <- py_int p ;;
    Ok (W_intermediary, H_intermediary).

(** Lines 175-189: the repair of an intermediary size smaller than the
    target.  The megapixel count of line 189 is only logged, but its
    division can raise. *)
Definition repair_intermediary (aspect_ratio : float)
    (W_target H_target W_intermediary H_intermediary : Z) : res (Z * Z) :=
  if (W_target >? W_intermediary) || (H_target >? H_intermediary) then
    '(W_diff, H_diff) <-
      (if W_target >? W_intermediary then
         let W_diff := W_target - W_intermediary in
         q <- py_truediv (PyInt W_diff) (PyFloat aspect_ratio) ;;
         H_diff <- py_int q ;;
         Ok (W_diff, H_diff)
       else
         let H_diff := H_target - H_intermediary in
         p <- py_mul_float (PyInt H_diff) aspect_ratio ;;
         W_diff <- py_int p ;;
         Ok (W_diff, H_diff)) ;;
    let H_intermediary := H_intermediary + H_diff in
    let W_intermediary := W_intermediary + W_diff in
    calculated_resulting_megapixels <-
      py_truediv (PyInt (W_intermediary * H_intermediary)) (PyFloat F64.million) ;;
    Ok (W_intermediary, H_intermediary)
  else Ok (W_intermediary, H_intermediary).

Definition calculate_new_size_by_pixel_area (cfg : args)
    (aspect_ratio megapixels : pynum) (original_size : size)
    : M (size * size * float) :=
  match aspect_ratio with
  | PyInt _ => M_lift (Err ValueError)
  | PyFloat aspect_ratio =>
      (target_pixel_edge <- M_lift (square_edge cfg megapixels) ;;
       let '(W_initial, H_initial) := original_size in
       if F64.eqb aspect_ratio F64.one then
         M_ret ((target_pixel_edge, target_pixel_edge),
                (W_initial, H_initial), aspect_ratio)
       else
         '(W_target, H_target, target_aspect_ratio) <-
           M_lift (computed_target cfg aspect_ratio target_pixel_edge) ;;
         '(W_intermediary, H_intermediary) <-
           M_lift (first_intermediary aspect_ratio W_target H_target) ;;
         adjusted_aspect_ratio <-
           M_lift (calculate_image_aspect_ratio cfg (ImgTuple (W_target, H_target))
                     default_rounding) ;;
         previously_stored_resolution <- M_get megapixels adjusted_aspect_ratio ;;
         let '(W_target, H_target) :=
           match previously_stored_resolution with
           | Some stored => stored
           | None => (W_target, H_target)
           end in
         let target_resolution := (W_target, H_target) in
         intermediary_resolution <-
           M_lift (repair_intermediary aspect_ratio W_target H_target
                     W_intermediary H_intermediary) ;;
         _ <- match previously_stored_resolution with
              | Some _ => M_ret tt
              | None => M_set megapixels adjusted_aspect_ratio target_resolution
              end ;;
         M_ret (target_resolution, intermediary_resolution, adjusted_aspect_ratio))%M
  end.

Definition adjust_resolution_to_bucket_interval
    (initial_resolution target_resolution : size) : size :=
  let '(W_initial, H_initial) := initial_resolution in
  let '(W_adjusted, H_adjusted) := target_resolution in
  let W_diff := W_adjusted - W_initial in
  let H_diff := H_adjusted - H_initial in
  if (W_diff >? 0) && ((W_diff >? H_diff) || (W_diff =? H_diff)) then
    (W_initial + W_diff, H_initial + W_diff)
  else if (H_diff >? 0) && (H_diff >? W_diff) then
    (W_initial + H_diff, H_initial + H_diff)
  else (W_initial, H_initial).

End MultiaspectImage.

Import MultiaspectImage.

(** ** The vocabulary of the properties *)

(** The first size is at least the second in both axes. *)
Definition covers (intermediary target : size) : Prop :=
  fst target <= fst intermediary /\ snd target <= snd intermediary.

(** [exceeds z limit]: the integer [z] is greater than the exact value of the
    number [limit] (a fraction [n / d] for a finite float).  Nothing exceeds
    a nan or plus infinity. *)
Definition exceeds (z : Z) (limit : pynum) : Prop :=
  match limit with
  | PyInt l => l < z
  | PyFloat S754_nan => False
  | PyFloat (S754_infinity s) => s = true
  | PyFloat x => exists n d, F64.frac x = Some (n, d) /\ n < z * d
  end.

Arguments exceeds : simpl never.

(** A positive multiple of the alignment unit. *)
Definition aligned (cfg : args) (z : Z) : Prop :=
  exists k, 0 < k /\ z = k * aspect_bucket_alignment cfg.

(** A size with both dimensions aligned. *)
Definition aligned_size (cfg : args) (s : size) : Prop :=
  aligned cfg (fst s) /\ aligned cfg (snd s).

(** Every size the cache holds is aligned. *)
Definition cache_aligned (cfg : args) (c : resolution_cache) : Prop :=
  Forall (fun entry => aligned_size cfg (snd entry)) c.

(** The exact value of a number as a fraction. *)
Definition num_frac (v : pynum) : option (Z * Z) :=
  match v with
  | PyInt z => Some (z, 1)
  | PyFloat x => F64.frac x
  end.

(** The settings used in the examples: a 64-pixel grid and no override of the
    rounding precision. *)
Definition args64 : args :=
  {| aspect_bucket_alignment := 64; aspect_bucket_rounding := None |}.

(** The same on the 8-pixel grid. *)
Definition args8 : args :=
  {| aspect_bucket_alignment := 8; aspect_bucket_rounding := None |}.

(** 1.5, the aspect ratio of the examples. *)
Definition one_and_a_half : float := F64.div (F64.of_Z 3) (F64.of_Z 2).

(** The float written [a / b] in decimal notation, as Python reads it. *)
Definition decimal (a b : Z) : float :=
  F64.div (F64.exact false a) (F64.exact false b).

(** ** The rest of the module and the vocabulary of further properties *)

(** Lines 69-74 of [calculate_new_size_by_pixel_edge]: the size before
    rounding.  The resolution is the width when the original is narrower
    than high, the height otherwise. *)
Definition initial_size_by_pixel_edge (aspect_ratio : float) (resolution : Z)
    (original_size : size) : res (Z * Z) :=
  let '(W_original, H_original) := original_size in
  if W_original <? H_original then
    let W_initial := resolution in
    q <- py_truediv (PyInt W_initial) (PyFloat aspect_ratio) ;;
    H_initial <- py_int q ;;
    Ok (W_initial, H_initial)
  else
    let H_initial := resolution in
    p <- py_mul_float (PyInt H_initial) aspect_ratio ;;
    W_initial <- py_int p ;;
    Ok (W_initial, H_initial).

(** What both sizers look like to a caller that picks one by name. *)
Definition resize_helper : Type :=
  args -> pynum -> pynum -> size -> M (size * size * float).

(** Lines 266-269: the sizers by resolution type.  The edge sizer does not
    touch the cache.  A key the dictionary does not hold is [None]. *)
Definition resize_helpers (resolution_type : string) : option resize_helper :=
  if String.eqb resolution_type "pixel" then
    Some (fun cfg aspect_ratio resolution original_size =>
            M_lift (calculate_new_size_by_pixel_edge cfg aspect_ratio resolution
                      original_size))
  else if String.eqb resolution_type "area" then
    Some calculate_new_size_by_pixel_area
  else None.

(** A number that is zero, negative, or a float with its sign bit set. *)
Definition non_positive (v : pynum) : Prop :=
  match v with
  | PyInt z => z <= 0
  | PyFloat x => F64.sign x = true \/ F64.is_zero x = true
  end.

(** The precision [calculate_image_aspect_ratio] rounds to. *)
Definition precision_in_force (cfg : args) (rounding : Z) : Z :=
  match aspect_bucket_rounding cfg with
  | None => rounding
  | Some r => r
  end.

(** Every entry of the cache sits under the rounded aspect ratio of its
    size. *)
Definition cache_keyed (cfg : args) (c : resolution_cache) : Prop :=
  Forall (fun entry =>
            exists k,
              calculate_image_aspect_ratio cfg (ImgTuple (snd entry))
                default_rounding = Ok k /\
              F64.eqb k (snd (fst entry)) = true) c.

(** A rounding record with nothing dropped so far. *)
Definition exact_record (m : Z) : shr_record :=
  {| shr_m := m; shr_r := false; shr_s := false |}.

(** * Properties *)

(** ** Results *)

Lemma res_bind_Ok {A B : Type} (r : res A) (k : A -> res B) (b : B) :
  res_bind r k = Ok b -> exists a, r = Ok a /\ k a = Ok b.
Proof.
  destruct r as [a|e]; simpl; intros H.
  - exists a. split; [reflexivity | exact H].
  - discriminate H.
Qed.

Ltac bind_inv H :=
  let a := fresh "v" in
  let Ha := fresh "E" in
  apply res_bind_Ok in H; destruct H as (a & Ha & H).

Tactic Notation "bind_named" hyp(H) ident(a) ident(Ha) :=
  apply res_bind_Ok in H; destruct H as (a & Ha & H).

(** ** The interval adjuster *)

(** C8: [adjust_resolution_to_bucket_interval] adds the width difference to
    both dimensions when it is positive and at least the height difference,
    adds the height difference to both when that one is positive and strictly
    greater, and returns the initial size otherwise; on (100,100) and
    (150,120) it returns (150,150). *)
Theorem adjust_resolution_to_bucket_interval_cases :
  forall W H Wt Ht : Z,
    let W_diff := Wt - W in
    let H_diff := Ht - H in
    (0 < W_diff /\ H_diff <= W_diff ->
       adjust_resolution_to_bucket_interval (W, H) (Wt, Ht)
       = (W + W_diff, H + W_diff)) /\
    (0 < H_diff /\ W_diff < H_diff ->
       adjust_resolution_to_bucket_interval (W, H) (Wt, Ht)
       = (W + H_diff, H + H_diff)) /\
    (~ (0 < W_diff /\ H_diff <= W_diff) /\ ~ (0 < H_diff /\ W_diff < H_diff) ->
       adjust_resolution_to_bucket_interval (W, H) (Wt, Ht) = (W, H)) /\
    adjust_resolution_to_bucket_interval (100, 100) (150, 120) = (150, 150).
Proof.
  intros W H Wt Ht W_diff H_diff. unfold adjust_resolution_to_bucket_interval.
  fold W_diff H_diff.
  repeat split; try reflexivity; intros Hc.
  - destruct Hc as [Hpos Hge].
    assert (E : (W_diff >? 0) && ((W_diff >? H_diff) || (W_diff =? H_diff)) = true).
    { apply andb_true_iff. split; [lia|].
      apply orb_true_iff. destruct (Z.eq_dec W_diff H_diff); [right|left]; lia. }
    rewrite E. reflexivity.
  - destruct Hc as [Hpos Hgt].
    assert (E1 : (W_diff >? 0) && ((W_diff >? H_diff) || (W_diff =? H_diff)) = false).
    { apply andb_false_iff. right. apply orb_false_iff. split; lia. }
    assert (E2 : (H_diff >? 0) && (H_diff >? W_diff) = true).
    { apply andb_true_iff. split; lia. }
    rewrite E1, E2. reflexivity.
  - destruct Hc as [Hn1 Hn2].
    assert (E1 : (W_diff >? 0) && ((W_diff >? H_diff) || (W_diff =? H_diff)) = false).
    { apply andb_false_iff.
      destruct (Z_lt_dec 0 W_diff); [right|left; lia].
      apply orb_false_iff. split; lia. }
    assert (E2 : (H_diff >? 0) && (H_diff >? W_diff) = false).
    { apply andb_false_iff. destruct (Z_lt_dec 0 H_diff); [right|left]; lia. }
    rewrite E1, E2. reflexivity.
Qed.

(** C10: the size [adjust_resolution_to_bucket_interval] returns is at
    least the target in both axes. *)
Theorem adjust_resolution_to_bucket_interval_covers :
  forall initial_resolution target_resolution : size,
    covers (adjust_resolution_to_bucket_interval initial_resolution target_resolution)
           target_resolution.
Proof.
  intros [W H] [Wt Ht]. unfold adjust_resolution_to_bucket_interval, covers.
  destruct ((Wt - W >? 0) && ((Wt - W >? Ht - H) || (Wt - W =? Ht - H))) eqn:E1.
  - apply andb_true_iff in E1. destruct E1 as [Hp Hd].
    apply orb_true_iff in Hd. simpl. destruct Hd; lia.
  - destruct ((Ht - H >? 0) && (Ht - H >? Wt - W)) eqn:E2.
    + apply andb_true_iff in E2. simpl. lia.
    + apply andb_false_iff in E1. apply andb_false_iff in E2. simpl.
      rewrite orb_false_iff in E1. lia.
Qed.

(** ** The oversize check *)

Lemma int_gt_exceeds (z : Z) (limit : pynum) :
  int_gt z limit = true <-> exceeds z limit.
Proof.
  unfold int_gt, exceeds, int_compare.
  destruct limit as [l|x].
  - destruct (Z.compare_spec z l) as [E|E|E]; split; intros H;
      try discriminate; try reflexivity; first [lia | exfalso; lia].
  - destruct x as [s|s| |s m e]; unfold F64.Zcompare.
    + simpl. destruct (Z.compare_spec (z * 1) 0) as [E|E|E]; split; intros H;
        try discriminate; try reflexivity.
      * destruct H as (n & d & Hf & Hlt). injection Hf as <- <-. exfalso; lia.
      * destruct H as (n & d & Hf & Hlt). injection Hf as <- <-. exfalso; lia.
      * exists 0, 1. split; [reflexivity | lia].
    + destruct s; split; intros H; try discriminate; reflexivity.
    + split; [discriminate | intros []].
    + destruct (F64.frac (S754_finite s m e)) as [[n d]|] eqn:Hf.
      * destruct (Z.compare_spec (z * d) n) as [E|E|E]; split; intros H;
          try discriminate; try reflexivity.
        -- destruct H as (n' & d' & Hf' & Hlt). injection Hf' as <- <-.
           exfalso; lia.
        -- destruct H as (n' & d' & Hf' & Hlt). injection Hf' as <- <-.
           exfalso; lia.
        -- exists n, d. split; [reflexivity | lia].
      * split; [discriminate|]. intros (n & d & Hf' & _). discriminate.
Qed.

(** C7: in mode "pixel" the check is true exactly when either dimension
    exceeds the limit; in mode "area" exactly when width times height exceeds
    the float product of the limit and 1e6; any other mode raises
    [ValueError].  (5000,3000) is too large for 1024 pixels, not for 20
    megapixels, and is for 10 megapixels. *)
Theorem is_image_too_large_modes :
  forall (w h : Z) (limit : pynum),
    (exists b, is_image_too_large (w, h) limit "pixel" = Ok b) /\
    (is_image_too_large (w, h) limit "pixel" = Ok true
       <-> exceeds w limit \/ exceeds h limit) /\
    (forall target_area,
        py_mul_float limit F64.million = Ok target_area ->
        (exists b, is_image_too_large (w, h) limit "area" = Ok b) /\
        (is_image_too_large (w, h) limit "area" = Ok true
           <-> exceeds (w * h) (PyFloat target_area))) /\
    (forall mode : string,
        mode <> "pixel"%string -> mode <> "area"%string ->
        is_image_too_large (w, h) limit mode = Err ValueError) /\
    is_image_too_large (5000, 3000) (PyInt 1024) "pixel" = Ok true /\
    is_image_too_large (5000, 3000) (PyInt 20) "area" = Ok false /\
    is_image_too_large (5000, 3000) (PyInt 10) "area" = Ok true.
Proof.
  intros w h limit. unfold is_image_too_large.
  repeat split; try (vm_compute; reflexivity).
  - simpl. eexists. reflexivity.
  - simpl. intros H. injection H as H. apply orb_true_iff in H.
    rewrite <- !int_gt_exceeds. exact H.
  - simpl. intros H. f_equal. apply orb_true_iff.
    rewrite !int_gt_exceeds. exact H.
  - simpl. rewrite H. simpl. eexists. reflexivity.
  - simpl. rewrite H. simpl. intros Hb. injection Hb as Hb.
    apply int_gt_exceeds. exact Hb.
  - simpl. rewrite H. simpl. intros Hb. f_equal.
    apply int_gt_exceeds. exact Hb.
  - intros mode Hp Ha.
    destruct (String.eqb_spec mode "pixel"); [contradiction|].
    destruct (String.eqb_spec mode "area"); [contradiction|].
    reflexivity.
Qed.

(** ** The aspect-ratio calculator *)

Lemma int_truediv_zero_division (a b : Z) :
  int_truediv a b = Err ZeroDivisionError <-> b = 0.
Proof.
  unfold int_truediv. destruct (Z.eqb_spec b 0) as [Hb|Hb].
  - split; [intros _; exact Hb | reflexivity].
  - split; [|contradiction].
    destruct (F64.is_finite _); discriminate.
Qed.

Lemma py_round_ndigits_no_zero_division (x : float) (ndigits : Z) :
  py_round_ndigits x ndigits <> Err ZeroDivisionError.
Proof.
  unfold py_round_ndigits.
  destruct (F64.frac x) as [[n d]|]; [|discriminate].
  destruct (F64.is_zero x); [discriminate|].
  match goal with |- (if ?b then _ else _) <> _ => destruct b end; discriminate.
Qed.

(** C6, as the code has it: given a size, [calculate_image_aspect_ratio]
    raises [ZeroDivisionError] exactly when the height is zero, whatever the
    signs of the two dimensions. *)
Theorem calculate_image_aspect_ratio_zero_height :
  forall (cfg : args) (w h rounding : Z),
    (calculate_image_aspect_ratio cfg (ImgTuple (w, h)) rounding
       = Err ZeroDivisionError <-> h = 0) /\
    (calculate_image_aspect_ratio cfg (ImgImage (w, h)) rounding
       = Err ZeroDivisionError <-> h = 0) /\
    (calculate_image_aspect_ratio cfg (ImgOther (w, h)) rounding
       = Err ZeroDivisionError <-> h = 0).
Proof.
  intros cfg w h rounding.
  assert (G : forall nd,
             (q <- int_truediv w h ;; py_round_ndigits q nd)%res
             = Err ZeroDivisionError <-> h = 0).
  { intros nd. rewrite <- (int_truediv_zero_division w h).
    destruct (int_truediv w h) as [q|e]; simpl.
    - split; [|discriminate].
      intros H. exfalso. exact (py_round_ndigits_no_zero_division q nd H).
    - split; intros H; exact H. }
  unfold calculate_image_aspect_ratio. repeat split; apply G.
Qed.

(** C6 fails as stated: the size (-4, 2) has a non-positive dimension and
    [calculate_image_aspect_ratio] returns -2.0 for it. *)
Lemma calculate_image_aspect_ratio_negative_width :
  ~ (forall (cfg : args) (w h rounding : Z),
        h = 0 \/ w <= 0 \/ h <= 0 ->
        exists e, calculate_image_aspect_ratio cfg (ImgTuple (w, h)) rounding = Err e).
Proof.
  intros H.
  destruct (H args64 (-4) 2 2) as [e He]; [right; left; lia|].
  vm_compute in He. discriminate He.
Qed.

(** ** The alignment rounder *)

Lemma rne_div_bounds (n d : Z) :
  0 < d -> - d <= 2 * (F64.rne_div n d * d - n) <= d.
Proof.
  intros Hd. unfold F64.rne_div.
  pose proof (Z.div_mod n d ltac:(lia)) as Hdm.
  pose proof (Z.mod_pos_bound n d Hd) as Hm.
  remember (n / d) as q. remember (n mod d) as m.
  assert (Hq : q * d = n - m) by lia.
  assert (Hq1 : (q + 1) * d = n - m + d) by lia.
  destruct (Z.compare_spec (2 * m) d) as [E|E|E].
  - destruct (Z.even q); [rewrite Hq | rewrite Hq1]; lia.
  - rewrite Hq. lia.
  - rewrite Hq1. lia.
Qed.

Lemma frac_den_pos (x : float) (n d : Z) :
  F64.frac x = Some (n, d) -> 0 < d.
Proof.
  destruct x as [s|s| |s m e]; simpl; intros H; try discriminate.
  - injection H as <- <-. lia.
  - destruct (Z.leb_spec 0 e); injection H as <- <-; [lia|].
    apply Z.pow_pos_nonneg; lia.
Qed.

Lemma py_round_Ok (x : float) (r : Z) :
  py_round x = Ok r ->
  exists n d, F64.frac x = Some (n, d) /\ 0 < d /\ r = F64.rne_div n d.
Proof.
  unfold py_round. intros H.
  destruct (F64.frac x) as [[n d]|] eqn:Hf.
  - exists n, d. split; [reflexivity|]. split; [exact (frac_den_pos x n d Hf)|].
    destruct x; try discriminate; injection H as <-; reflexivity.
  - destruct x; discriminate.
Qed.

(** Among the positive multiples of [u], [max (r * u) u] is nearest to
    [u * n / d] when [r] is an integer nearest to [n / d]. *)
Lemma clamp_nearest (n d r u k : Z) :
  0 < d -> 0 < u -> 0 < k ->
  - d <= 2 * (r * d - n) <= d ->
  Z.abs (Z.max (r * u) u * d - n * u) <= Z.abs (k * u * d - n * u).
Proof.
  intros Hd Hu Hk Hr.
  assert (Hfac : forall j, Z.abs (j * u * d - n * u) = u * Z.abs (j * d - n)).
  { intros j. replace (j * u * d - n * u) with (u * (j * d - n)) by ring.
    rewrite Z.abs_mul. rewrite (Z.abs_eq u); lia. }
  destruct (Z_lt_le_dec r 1) as [Hlow|Hhigh].
  - assert (Hmax : Z.max (r * u) u = 1 * u) by nia.
    rewrite Hmax, !Hfac. apply Z.mul_le_mono_nonneg_l; [lia|].
    assert (r * d <= 0) by nia.
    assert (d <= k * d) by nia.
    lia.
  - assert (Hmax : Z.max (r * u) u = r * u) by nia.
    rewrite Hmax, !Hfac. apply Z.mul_le_mono_nonneg_l; [lia|].
    destruct (Z.lt_trichotomy k r) as [Hlt|[Heq|Hgt]].
    + assert (k * d <= r * d - d) by nia. lia.
    + subst k. lia.
    + assert (r * d + d <= k * d) by nia. lia.
Qed.

Lemma round_to_nearest_multiple_Ok (cfg : args) (value : pynum) (out : Z) :
  _round_to_nearest_multiple cfg value = Ok out ->
  exists q r,
    py_truediv value (PyInt (aspect_bucket_alignment cfg)) = Ok q /\
    py_round q = Ok r /\
    out = Z.max (r * aspect_bucket_alignment cfg) (aspect_bucket_alignment cfg).
Proof.
  unfold _round_to_nearest_multiple. intros H.
  bind_inv H. bind_inv H. injection H as <-.
  eauto.
Qed.

Lemma round_to_nearest_multiple_aligned (cfg : args) (value : pynum) (out : Z) :
  0 < aspect_bucket_alignment cfg ->
  _round_to_nearest_multiple cfg value = Ok out ->
  aligned cfg out /\ aspect_bucket_alignment cfg <= out.
Proof.
  intros Hu H. apply round_to_nearest_multiple_Ok in H.
  destruct H as (q & r & _ & _ & ->).
  split; [|lia]. unfold aligned.
  destruct (Z_lt_le_dec r 1).
  - exists 1. split; [lia|]. nia.
  - exists r. split; [lia|]. nia.
Qed.

(** C5, as the code has it: with a positive unit [u], a result of the
    rounder is [round(q) * u] clamped below at [u], where [q = n / d] is the
    float quotient of the value by [u]; it is a positive multiple of [u], at
    least [u], and the positive multiple of [u] nearest to [q * u]; so it is
    the one nearest to the value [nv / dv] whenever the float quotient is
    the exact quotient. *)
Theorem round_to_nearest_multiple_nearest :
  forall (cfg : args) (value : pynum) (out : Z),
    let u := aspect_bucket_alignment cfg in
    0 < u ->
    _round_to_nearest_multiple cfg value = Ok out ->
    exists (q : float) (n d : Z),
      py_truediv value (PyInt u) = Ok q /\
      F64.frac q = Some (n, d) /\ 0 < d /\
      out = Z.max (F64.rne_div n d * u) u /\
      u <= out /\
      aligned cfg out /\
      (forall k, 0 < k ->
         Z.abs (out * d - n * u) <= Z.abs (k * u * d - n * u)) /\
      (forall nv dv,
         num_frac value = Some (nv, dv) -> n * u * dv = nv * d ->
         forall k, 0 < k ->
           Z.abs (out * dv - nv) <= Z.abs (k * u * dv - nv)).
Proof.
  intros cfg value out u Hu H.
  destruct (round_to_nearest_multiple_aligned cfg value out Hu H) as [Hal Hge].
  apply round_to_nearest_multiple_Ok in H. destruct H as (q & r & Hq & Hr & Hout).
  apply py_round_Ok in Hr. destruct Hr as (n & d & Hf & Hd & ->).
  fold u in Hq, Hout, Hge.
  assert (Hnear : forall k, 0 < k ->
            Z.abs (out * d - n * u) <= Z.abs (k * u * d - n * u)).
  { intros k Hk. rewrite Hout.
    apply clamp_nearest; try assumption. apply rne_div_bounds. exact Hd. }
  exists q, n, d. repeat split; try assumption.
  intros nv dv Hv Hex k Hk.
  assert (Hdv : 0 < dv).
  { destruct value as [z|x]; simpl in Hv.
    - injection Hv as _ <-. lia.
    - exact (frac_den_pos x nv dv Hv). }
  specialize (Hnear k Hk).
  assert (E1 : (out * d - n * u) * dv = d * (out * dv - nv)).
  { replace ((out * d - n * u) * dv) with (out * d * dv - n * u * dv) by ring.
    rewrite Hex. ring. }
  assert (E2 : (k * u * d - n * u) * dv = d * (k * u * dv - nv)).
  { replace ((k * u * d - n * u) * dv) with (k * u * d * dv - n * u * dv) by ring.
    rewrite Hex. ring. }
  assert (Hm : Z.abs ((out * d - n * u) * dv) <= Z.abs ((k * u * d - n * u) * dv)).
  { rewrite !Z.abs_mul, (Z.abs_eq dv) by lia.
    apply Z.mul_le_mono_nonneg_r; lia. }
  rewrite E1, E2, !Z.abs_mul, (Z.abs_eq d) in Hm by lia.
  apply Z.mul_le_mono_pos_l in Hm; assumption.
Qed.

(** Witness of C5: 1000 on the 64-pixel grid; 1000 / 64 = 15.625 is exact,
    and 1024 is the multiple of 64 nearest to 1000. *)
Lemma round_to_nearest_multiple_nearest_witness :
  exists (q : float) (n d : Z),
    py_truediv (PyInt 1000) (PyInt 64) = Ok q /\
    F64.frac q = Some (n, d) /\ 0 < d /\
    1024 = Z.max (F64.rne_div n d * 64) 64 /\
    64 <= 1024 /\
    aligned args64 1024 /\
    (forall k, 0 < k ->
       Z.abs (1024 * d - n * 64) <= Z.abs (k * 64 * d - n * 64)) /\
    (forall nv dv,
       num_frac (PyInt 1000) = Some (nv, dv) -> n * 64 * dv = nv * d ->
       forall k, 0 < k ->
         Z.abs (1024 * dv - nv) <= Z.abs (k * 64 * dv - nv)).
Proof.
  apply (round_to_nearest_multiple_nearest args64 (PyInt 1000) 1024).
  - reflexivity.
  - vm_compute. reflexivity.
Defined.

(** C5 fails as stated: with unit 1 the rounder takes 2^53 + 1 to 2^53,
    because the float quotient (2^53 + 1) / 1 is 2^53, while 2^53 + 1 is
    itself a positive multiple of 1. *)
Lemma round_to_nearest_multiple_not_nearest :
  ~ (forall (cfg : args) (z out : Z),
        0 < aspect_bucket_alignment cfg ->
        _round_to_nearest_multiple cfg (PyInt z) = Ok out ->
        forall k, 0 < k ->
          Z.abs (out - z) <= Z.abs (k * aspect_bucket_alignment cfg - z)).
Proof.
  intros H.
  specialize (H {| aspect_bucket_alignment := 1; aspect_bucket_rounding := None |}
                (2 ^ 53 + 1) (2 ^ 53)).
  simpl in H.
  specialize (H ltac:(lia) ltac:(vm_compute; reflexivity) (2 ^ 53 + 1) ltac:(lia)).
  vm_compute in H. apply H. reflexivity.
Qed.

(** ** Signs of float results *)

Lemma binary_round_aux_sign (sx : bool) (mx ex : Z) (lx : location) :
  binary_round_aux F64.prec F64.emax sx mx ex lx = S754_nan \/
  F64.sign (binary_round_aux F64.prec F64.emax sx mx ex lx) = sx.
Proof.
  unfold binary_round_aux.
  destruct (shr_fexp F64.prec F64.emax mx ex lx) as [mrs' e'].
  destruct (shr_fexp F64.prec F64.emax _ e' loc_Exact) as [mrs'' e''].
  destruct (shr_m mrs'') as [|m|m].
  - right. reflexivity.
  - right. destruct (Z.leb e'' (Z.sub F64.emax F64.prec)); reflexivity.
  - left. reflexivity.
Qed.

Lemma mul_sign (x y : float) :
  F64.mul x y = S754_nan \/
  F64.sign (F64.mul x y) = xorb (F64.sign x) (F64.sign y).
Proof.
  destruct x as [sx|sx| |sx mx ex], y as [sy|sy| |sy my ey];
    try (left; reflexivity); try (right; reflexivity).
  apply binary_round_aux_sign.
Qed.

Lemma div_sign (x y : float) :
  F64.div x y = S754_nan \/
  F64.sign (F64.div x y) = xorb (F64.sign x) (F64.sign y).
Proof.
  destruct x as [sx|sx| |sx mx ex], y as [sy|sy| |sy my ey];
    try (left; reflexivity); try (right; reflexivity).
  unfold F64.div, SFdiv.
  destruct (SFdiv_core_binary F64.prec F64.emax (Zpos mx) ex (Zpos my) ey)
    as [[mz ez] lz].
  apply binary_round_aux_sign.
Qed.

Lemma float_of_int_sign (z : Z) (x : float) :
  0 < z -> float_of_int z = Ok x -> F64.sign x = false.
Proof.
  unfold float_of_int, F64.of_Z. intros Hz H.
  destruct z as [|p|p]; try lia.
  unfold binary_normalize, binary_round in H.
  destruct (shl_align p 0 _) as [mz ez].
  destruct (binary_round_aux_sign false (Zpos mz) ez loc_Exact) as [E|E].
  - rewrite E in H. discriminate H.
  - destruct (F64.is_finite _); [|discriminate]. injection H as <-. exact E.
Qed.

Lemma py_int_nonneg (x : float) (z : Z) :
  F64.sign x = false -> py_int x = Ok z -> 0 <= z.
Proof.
  destruct x as [s|s| |s m e]; unfold py_int, F64.frac, F64.sign;
    intros Hs H; try discriminate.
  - injection H as <-. reflexivity.
  - subst s. unfold cond_Zopp in H.
    assert (Hp : 0 < 2 ^ e \/ e < 0).
    { destruct (Z_lt_le_dec e 0); [right; assumption | left].
      apply Z.pow_pos_nonneg; lia. }
    destruct (Z.leb_spec 0 e); injection H as <-.
    + apply Z.quot_pos; [|lia]. destruct Hp; [|lia].
      assert (G : 0 <= Z.pos m * 2 ^ e) by (apply Z.mul_nonneg_nonneg; lia).
      exact G.
    + apply Z.quot_pos; [lia|]. apply Z.pow_pos_nonneg; lia.
Qed.

(** [int(d * y)] and [int(d / y)] are not negative for a positive integer
    [d] and a float [y] with a clear sign bit. *)
Lemma int_of_mul_nonneg (d : Z) (y p : float) (z : Z) :
  0 < d -> F64.sign y = false ->
  py_mul_float (PyInt d) y = Ok p -> py_int p = Ok z -> 0 <= z.
Proof.
  unfold py_mul_float. simpl. intros Hd Hy H Hz.
  bind_inv H. injection H as <-.
  pose proof (float_of_int_sign d v Hd E) as Hv.
  destruct (mul_sign v y) as [En|Es].
  - rewrite En in Hz. discriminate Hz.
  - rewrite Hv, Hy in Es. exact (py_int_nonneg _ _ Es Hz).
Qed.

Lemma int_of_div_nonneg (d : Z) (y q : float) (z : Z) :
  0 < d -> F64.sign y = false ->
  py_truediv (PyInt d) (PyFloat y) = Ok q -> py_int q = Ok z -> 0 <= z.
Proof.
  unfold py_truediv. simpl. intros Hd Hy H Hz.
  bind_inv H. unfold float_truediv in H.
  destruct (F64.is_zero y); [discriminate|]. injection H as <-.
  pose proof (float_of_int_sign d v Hd E) as Hv.
  destruct (div_sign v y) as [En|Es].
  - rewrite En in Hz. discriminate Hz.
  - rewrite Hv, Hy in Es. exact (py_int_nonneg _ _ Es Hz).
Qed.

(** ** The sizers *)

Lemma edge_sizer_covers (cfg : args) (aspect_ratio resolution : pynum)
    (original_size target intermediary : size) (aspect : float) :
  calculate_new_size_by_pixel_edge cfg aspect_ratio resolution original_size
    = Ok (target, intermediary, aspect) ->
  covers intermediary target.
Proof.
  unfold calculate_new_size_by_pixel_edge.
  destruct aspect_ratio as [?|ar]; [discriminate|].
  destruct resolution as [r|?]; [|discriminate].
  destruct original_size as [W_original H_original].
  intros H. bind_inv H. destruct v as [W_initial H_initial].
  bind_inv H. rename v into W_adjusted. bind_inv H. rename v into H_adjusted.
  destruct ((W_initial <? W_adjusted) || (H_initial <? H_adjusted)) eqn:Hc;
    bind_inv H; injection H as <- <- <-; unfold covers; simpl.
  - lia.
  - apply orb_false_iff in Hc. lia.
Qed.

(** What a run of the area sizer on a non-square aspect ratio consists of. *)
Lemma area_sizer_run (cfg : args) (ar : float) (megapixels : pynum)
    (original_size : size) (c : resolution_cache)
    (edge W_target H_target W_intermediary H_intermediary : Z) (k0 k : float) :
  F64.eqb ar F64.one = false ->
  square_edge cfg megapixels = Ok edge ->
  computed_target cfg ar edge = Ok (W_target, H_target, k0) ->
  first_intermediary ar W_target H_target = Ok (W_intermediary, H_intermediary) ->
  calculate_image_aspect_ratio cfg (ImgTuple (W_target, H_target)) default_rounding
    = Ok k ->
  calculate_new_size_by_pixel_area cfg (PyFloat ar) megapixels original_size c
  = match get_resolution_by_aspect c megapixels k with
    | Some stored =>
        match repair_intermediary ar (fst stored) (snd stored)
                W_intermediary H_intermediary with
        | Ok intermediary => (Ok (stored, intermediary, k), c)
        | Err e => (Err e, c)
        end
    | None =>
        match repair_intermediary ar W_target H_target
                W_intermediary H_intermediary with
        | Ok intermediary =>
            (Ok ((W_target, H_target), intermediary, k),
             set_resolution_by_aspect c megapixels k (W_target, H_target))
        | Err e => (Err e, c)
        end
    end.
Proof.
  intros Hne He Ht Hi Hk.
  unfold calculate_new_size_by_pixel_area, M_bind, M_lift, M_get, M_set, M_ret.
  rewrite He. destruct original_size as [W_initial H_initial].
  rewrite Hne, Ht, Hi, Hk.
  destruct (get_resolution_by_aspect c megapixels k) as [[Ws Hs]|]; simpl.
  - destruct (repair_intermediary ar Ws Hs W_intermediary H_intermediary);
      reflexivity.
  - destruct (repair_intermediary ar W_target H_target W_intermediary H_intermediary);
      reflexivity.
Qed.

(** A result on a non-square aspect ratio comes from such a run. *)
Lemma area_sizer_inv (cfg : args) (ar : float) (megapixels : pynum)
    (original_size : size) (c c' : resolution_cache)
    (target intermediary : size) (k : float) :
  F64.eqb ar F64.one = false ->
  calculate_new_size_by_pixel_area cfg (PyFloat ar) megapixels original_size c
    = (Ok (target, intermediary, k), c') ->
  exists edge W_target H_target k0 W_intermediary H_intermediary,
    square_edge cfg megapixels = Ok edge /\
    computed_target cfg ar edge = Ok (W_target, H_target, k0) /\
    first_intermediary ar W_target H_target = Ok (W_intermediary, H_intermediary) /\
    calculate_image_aspect_ratio cfg (ImgTuple (W_target, H_target)) default_rounding
      = Ok k /\
    repair_intermediary ar (fst target) (snd target) W_intermediary H_intermediary
      = Ok intermediary /\
    ((get_resolution_by_aspect c megapixels k = Some target /\ c' = c) \/
     (get_resolution_by_aspect c megapixels k = None /\
      target = (W_target, H_target) /\
      c' = set_resolution_by_aspect c megapixels k target)).
Proof.
  intros Hne H.
  destruct (square_edge cfg megapixels) as [edge|e] eqn:He.
  2:{ unfold calculate_new_size_by_pixel_area, M_bind, M_lift in H.
      rewrite He in H. discriminate H. }
  destruct (computed_target cfg ar edge) as [[[W_target H_target] k0]|e] eqn:Ht.
  2:{ unfold calculate_new_size_by_pixel_area, M_bind, M_lift in H.
      rewrite He in H. destruct original_size. rewrite Hne, Ht in H.
      discriminate H. }
  destruct (first_intermediary ar W_target H_target)
    as [[W_intermediary H_intermediary]|e] eqn:Hi.
  2:{ unfold calculate_new_size_by_pixel_area, M_bind, M_lift in H.
      rewrite He in H. destruct original_size. rewrite Hne, Ht, Hi in H.
      discriminate H. }
  destruct (calculate_image_aspect_ratio cfg (ImgTuple (W_target, H_target))
              default_rounding) as [k1|e] eqn:Hk.
  2:{ unfold calculate_new_size_by_pixel_area, M_bind, M_lift in H.
      rewrite He in H. destruct original_size. rewrite Hne, Ht, Hi, Hk in H.
      discriminate H. }
  rewrite (area_sizer_run cfg ar megapixels original_size c edge W_target H_target
             W_intermediary H_intermediary k0 k1 Hne He Ht Hi Hk) in H.
  exists edge, W_target, H_target, k0, W_intermediary, H_intermediary.
  destruct (get_resolution_by_aspect c megapixels k1) as [stored|] eqn:Hg.
  - destruct (repair_intermediary ar (fst stored) (snd stored) _ _) eqn:Hr;
      [|discriminate H].
    injection H as <- <- <- <-. repeat split; try assumption.
    left. split; [assumption | reflexivity].
  - destruct (repair_intermediary ar W_target H_target _ _) eqn:Hr;
      [|discriminate H].
    injection H as <- <- <- <-. repeat split; try assumption.
    right. repeat split; assumption.
Qed.

(** A run of the area sizer on aspect ratio 1.0. *)
Lemma area_sizer_square (cfg : args) (ar : float) (megapixels : pynum)
    (original_size : size) (c : resolution_cache) :
  F64.eqb ar F64.one = true ->
  calculate_new_size_by_pixel_area cfg (PyFloat ar) megapixels original_size c
  = ((edge <- square_edge cfg megapixels ;;
      Ok ((edge, edge), original_size, ar))%res, c).
Proof.
  intros Heq.
  unfold calculate_new_size_by_pixel_area, M_bind, M_lift, M_ret.
  destruct (square_edge cfg megapixels) as [edge|e]; simpl; [|reflexivity].
  destruct original_size as [W_initial H_initial]. rewrite Heq. reflexivity.
Qed.

Lemma computed_target_sign (cfg : args) (ar : float) (edge : Z)
    (r : Z * Z * float) :
  computed_target cfg ar edge = Ok r -> F64.sign ar = false.
Proof.
  unfold computed_target. intros H.
  bind_inv H. bind_inv H. bind_inv H. bind_inv H. bind_inv H.
  clear H. clear E1 E0.
  destruct ar as [s|s| |s m e]; try reflexivity.
  - destruct s; [|reflexivity].
    injection E2 as <-. exfalso.
    unfold py_truediv in E3. bind_inv E3. discriminate E3.
  - destruct s; [discriminate E | reflexivity].
  - destruct s; [discriminate E | reflexivity].
Qed.

(** The repair of the area sizer, on the intermediary size computed from the
    same target, makes the intermediary size cover the target. *)
Lemma repair_intermediary_covers (ar : float)
    (W_target H_target W_intermediary H_intermediary : Z) (intermediary : size) :
  F64.sign ar = false ->
  first_intermediary ar W_target H_target = Ok (W_intermediary, H_intermediary) ->
  repair_intermediary ar W_target H_target W_intermediary H_intermediary
    = Ok intermediary ->
  covers intermediary (W_target, H_target).
Proof.
  intros Hs Hi Hr.
  assert (Hfirst : W_intermediary = W_target \/ H_intermediary = H_target).
  { unfold first_intermediary in Hi.
    destruct (W_target <? H_target); bind_inv Hi; bind_inv Hi;
      injection Hi as <- <-; [left | right]; reflexivity. }
  unfold repair_intermediary in Hr.
  destruct ((W_target >? W_intermediary) || (H_target >? H_intermediary)) eqn:Hc.
  - bind_named Hr diffs Hd. destruct diffs as [W_diff H_diff].
    bind_named Hr mp Hmp. injection Hr as <-. unfold covers. simpl.
    destruct (W_target >? W_intermediary) eqn:Hw.
    + bind_named Hd q Hq. bind_named Hd z Hz. injection Hd as <- <-.
      assert (0 <= z).
      { apply (int_of_div_nonneg (W_target - W_intermediary) ar q); try assumption.
        lia. }
      lia.
    + bind_named Hd p Hp. bind_named Hd z Hz. injection Hd as <- <-.
      simpl in Hc.
      assert (0 <= z).
      { apply (int_of_mul_nonneg (H_target - H_intermediary) ar p); try assumption.
        lia. }
      lia.
  - injection Hr as <-. apply orb_false_iff in Hc. unfold covers. simpl. lia.
Qed.

(** C1, as the code has it: the intermediary size is at least the target in
    both axes for every result of the edge sizer, and for every result of the
    area sizer on an aspect ratio other than 1.0 when the cache holds, for
    the bucket, nothing or the target just computed. *)
Theorem sizers_intermediary_covers_target :
  forall cfg : args,
    (forall aspect_ratio resolution original_size target intermediary aspect,
        calculate_new_size_by_pixel_edge cfg aspect_ratio resolution original_size
          = Ok (target, intermediary, aspect) ->
        covers intermediary target) /\
    (forall ar megapixels original_size c target intermediary aspect c',
        F64.eqb ar F64.one = false ->
        calculate_new_size_by_pixel_area cfg (PyFloat ar) megapixels original_size c
          = (Ok (target, intermediary, aspect), c') ->
        (forall edge W_target H_target k0 stored,
            square_edge cfg megapixels = Ok edge ->
            computed_target cfg ar edge = Ok (W_target, H_target, k0) ->
            get_resolution_by_aspect c megapixels aspect = Some stored ->
            stored = (W_target, H_target)) ->
        covers intermediary target).
Proof.
  intros cfg. split.
  - intros. eapply edge_sizer_covers. eassumption.
  - intros ar megapixels original_size c target intermediary aspect c' Hne H Hcache.
    apply area_sizer_inv in H; [|exact Hne].
    destruct H as (edge & Wt & Ht & k0 & Wi & Hi & He & Hct & Hfi & Hk & Hr & Hg).
    assert (Ht' : target = (Wt, Ht)).
    { destruct Hg as [[Hg _]|[_ [Hg _]]]; [|exact Hg].
      exact (Hcache edge Wt Ht k0 target He Hct Hg). }
    subst target. simpl in Hr.
    eapply repair_intermediary_covers; try eassumption.
    eapply computed_target_sign. eassumption.
Qed.

(** Witness of C1: the edge sizer at 1000 pixels and the area sizer at one
    megapixel with an empty cache, both on a 2000 by 1000 image of aspect
    ratio 1.5. *)
Lemma sizers_intermediary_covers_target_witness :
  covers (1524, 1024) (1472, 1024) /\ covers (1280, 853) (1280, 832).
Proof.
  split.
  - apply (proj1 (sizers_intermediary_covers_target args64)
             (PyFloat one_and_a_half) (PyInt 1000) (2000, 1000)
             (1472, 1024) (1524, 1024)
             (S754_finite false 6485183463413514 (-52))).
    vm_compute. reflexivity.
  - apply (proj2 (sizers_intermediary_covers_target args64)
             one_and_a_half (PyFloat F64.one) (2000, 1000) []
             (1280, 832) (1280, 853)
             (S754_finite false 6935543426150564 (-52))
             [((PyFloat F64.one, S754_finite false 6935543426150564 (-52)),
               (1280, 832))]).
    + vm_compute. reflexivity.
    + vm_compute. reflexivity.
    + intros edge W_target H_target k0 stored _ _ Hg. discriminate Hg.
Defined.

(** C1 fails as stated: on aspect ratio 1.0 the area sizer returns the
    original size as the intermediary size, here (100, 100) under the target
    (1024, 1024). *)
Lemma area_sizer_square_not_covered :
  ~ (forall cfg ar megapixels original_size c target intermediary aspect c',
        0 < aspect_bucket_alignment cfg ->
        0 < fst original_size -> 0 < snd original_size ->
        calculate_new_size_by_pixel_area cfg (PyFloat ar) megapixels original_size c
          = (Ok (target, intermediary, aspect), c') ->
        covers intermediary target).
Proof.
  intros H.
  specialize (H args64 F64.one (PyFloat F64.one) (100, 100) []
                (1024, 1024) (100, 100) F64.one []).
  simpl in H.
  specialize (H ltac:(lia) ltac:(lia) ltac:(lia) ltac:(vm_compute; reflexivity)).
  destruct H as [H _]. simpl in H. lia.
Qed.

(** ** Alignment of the emitted sizes *)

Lemma get_resolution_aligned (cfg : args) (c : resolution_cache)
    (megapixels : pynum) (k : float) (stored : size) :
  cache_aligned cfg c ->
  get_resolution_by_aspect c megapixels k = Some stored ->
  aligned_size cfg stored.
Proof.
  unfold cache_aligned. induction c as [|[key v] c IH]; simpl; intros Hc Hg.
  - discriminate Hg.
  - inversion Hc as [|? ? Hv Hc']; subst.
    destruct (key_eqb key (megapixels, k)).
    + injection Hg as <-. exact Hv.
    + exact (IH Hc' Hg).
Qed.

Lemma set_resolution_aligned (cfg : args) (c : resolution_cache)
    (megapixels : pynum) (k : float) (resolution : size) :
  cache_aligned cfg c ->
  aligned_size cfg resolution ->
  cache_aligned cfg (set_resolution_by_aspect c megapixels k resolution).
Proof.
  unfold cache_aligned. intros Hc Hr.
  induction c as [|[key v] c IH]; simpl.
  - constructor; [exact Hr | constructor].
  - inversion Hc as [|? ? Hv Hc']; subst.
    destruct (key_eqb key (megapixels, k)); constructor; auto.
Qed.

Lemma square_edge_aligned (cfg : args) (megapixels : pynum) (edge : Z) :
  0 < aspect_bucket_alignment cfg ->
  square_edge cfg megapixels = Ok edge ->
  aligned cfg edge.
Proof.
  unfold square_edge. intros Hu H.
  bind_named H area Harea. bind_named H root Hroot. bind_named H n Hn.
  exact (proj1 (round_to_nearest_multiple_aligned cfg (PyInt n) edge Hu H)).
Qed.

Lemma computed_target_aligned (cfg : args) (ar : float) (edge : Z)
    (W_target H_target : Z) (k0 : float) :
  0 < aspect_bucket_alignment cfg ->
  computed_target cfg ar edge = Ok (W_target, H_target, k0) ->
  aligned_size cfg (W_target, H_target).
Proof.
  unfold computed_target. intros Hu H.
  bind_named H s Hs. bind_named H w Hw. bind_named H Wt HWt.
  bind_named H s' Hs'. bind_named H h Hh. bind_named H Ht HHt.
  bind_named H mp Hmp. bind_named H k Hk. injection H as <- <- <-.
  split; simpl.
  - exact (proj1 (round_to_nearest_multiple_aligned cfg _ _ Hu HWt)).
  - exact (proj1 (round_to_nearest_multiple_aligned cfg _ _ Hu HHt)).
Qed.

Lemma edge_sizer_target_aligned (cfg : args) (aspect_ratio resolution : pynum)
    (original_size target intermediary : size) (aspect : float) :
  0 < aspect_bucket_alignment cfg ->
  calculate_new_size_by_pixel_edge cfg aspect_ratio resolution original_size
    = Ok (target, intermediary, aspect) ->
  aligned_size cfg target.
Proof.
  unfold calculate_new_size_by_pixel_edge. intros Hu.
  destruct aspect_ratio as [?|ar]; [discriminate|].
  destruct resolution as [r|?]; [|discriminate].
  destruct original_size as [W_original H_original].
  intros H. bind_named H initial Hinit. destruct initial as [W_initial H_initial].
  bind_named H W_adjusted HW. bind_named H H_adjusted HH.
  destruct ((W_initial <? W_adjusted) || (H_initial <? H_adjusted));
    bind_named H k Hk; injection H as <- <- <-; split; simpl;
    first [ exact (proj1 (round_to_nearest_multiple_aligned cfg _ _ Hu HW))
          | exact (proj1 (round_to_nearest_multiple_aligned cfg _ _ Hu HH)) ].
Qed.

(** C3, as the code has it: with a positive alignment unit, both dimensions
    of every target size the sizers return are positive multiples of the
    unit; for the area sizer this holds on a cache that holds aligned sizes
    only, and the sizer leaves such a cache one. *)
Theorem sizers_target_aligned :
  forall cfg : args,
    0 < aspect_bucket_alignment cfg ->
    (forall aspect_ratio resolution original_size target intermediary aspect,
        calculate_new_size_by_pixel_edge cfg aspect_ratio resolution original_size
          = Ok (target, intermediary, aspect) ->
        aligned_size cfg target) /\
    (forall aspect_ratio megapixels original_size c target intermediary aspect c',
        cache_aligned cfg c ->
        calculate_new_size_by_pixel_area cfg aspect_ratio megapixels original_size c
          = (Ok (target, intermediary, aspect), c') ->
        aligned_size cfg target /\ cache_aligned cfg c').
Proof.
  intros cfg Hu. split.
  - intros. eapply edge_sizer_target_aligned; eassumption.
  - intros aspect_ratio megapixels original_size c target intermediary aspect c'
           Hc H.
    destruct aspect_ratio as [z|ar]; [discriminate H|].
    destruct (F64.eqb ar F64.one) eqn:Heq.
    + rewrite (area_sizer_square cfg ar megapixels original_size c Heq) in H.
      injection H as H <-.
      bind_named H edge He. injection H as <- <- <-.
      pose proof (square_edge_aligned cfg megapixels edge Hu He) as Ha.
      split; [split; exact Ha | exact Hc].
    + apply area_sizer_inv in H; [|exact Heq].
      destruct H as (edge & Wt & Ht & k0 & Wi & Hi & He & Hct & Hfi & Hk & Hr & Hg).
      pose proof (computed_target_aligned cfg ar edge Wt Ht k0 Hu Hct) as Hta.
      destruct Hg as [[Hg ->]|[Hg [-> ->]]].
      * split; [|exact Hc].
        exact (get_resolution_aligned cfg c megapixels aspect target Hc Hg).
      * split; [exact Hta|].
        apply set_resolution_aligned; assumption.
Qed.

(** Witness of C3: the edge sizer at 1000 pixels and the area sizer at one
    megapixel with an empty cache, on the 64-pixel grid. *)
Lemma sizers_target_aligned_witness :
  aligned_size args64 (1472, 1024) /\
  (aligned_size args64 (1280, 832) /\
   cache_aligned args64
     [((PyFloat F64.one, S754_finite false 6935543426150564 (-52)), (1280, 832))]).
Proof.
  assert (Hu : 0 < aspect_bucket_alignment args64) by reflexivity.
  split.
  - apply (proj1 (sizers_target_aligned args64 Hu)
             (PyFloat one_and_a_half) (PyInt 1000) (2000, 1000)
             (1472, 1024) (1524, 1024)
             (S754_finite false 6485183463413514 (-52))).
    vm_compute. reflexivity.
  - apply (proj2 (sizers_target_aligned args64 Hu)
             (PyFloat one_and_a_half) (PyFloat F64.one) (2000, 1000) []
             (1280, 832) (1280, 853)
             (S754_finite false 6935543426150564 (-52))).
    + constructor.
    + vm_compute. reflexivity.
Defined.

(** C3 fails as stated: at 1000 pixels on the 64-pixel grid the edge sizer
    returns the intermediary size (1524, 1024), and 1524 is no multiple of
    64. *)
Lemma edge_sizer_intermediary_not_aligned :
  ~ (forall cfg aspect_ratio resolution original_size target intermediary aspect,
        0 < aspect_bucket_alignment cfg ->
        0 < fst original_size -> 0 < snd original_size ->
        calculate_new_size_by_pixel_edge cfg aspect_ratio resolution original_size
          = Ok (target, intermediary, aspect) ->
        aligned_size cfg target /\ aligned_size cfg intermediary).
Proof.
  intros H.
  specialize (H args64 (PyFloat one_and_a_half) (PyInt 1000) (2000, 1000)
                (1472, 1024) (1524, 1024)
                (S754_finite false 6485183463413514 (-52))).
  simpl in H.
  specialize (H ltac:(lia) ltac:(lia) ltac:(lia) ltac:(vm_compute; reflexivity)).
  destruct H as [_ [[k [Hk Hw]] _]]. simpl in Hw. lia.
Qed.

(** ** The square case *)

(** C2: on an aspect ratio equal to 1.0 the area sizer returns the pair of
    [edge = _round_to_nearest_multiple(int(sqrt(megapixels * 1e6)))] with
    itself as the target, the original size as the intermediary size and
    the aspect ratio it was given, and raises what the computation of the
    edge raises; the cache is left as it was. *)
Theorem area_sizer_square_result :
  forall (cfg : args) (ar : float) (megapixels : pynum) (original_size : size)
         (c : resolution_cache),
    F64.eqb ar F64.one = true ->
    calculate_new_size_by_pixel_area cfg (PyFloat ar) megapixels original_size c
    = ((target_pixel_area <- py_mul_float megapixels F64.million ;;
        root <- py_sqrt target_pixel_area ;;
        n <- py_int root ;;
        edge <- _round_to_nearest_multiple cfg (PyInt n) ;;
        Ok ((edge, edge), original_size, ar))%res, c).
Proof.
  intros cfg ar megapixels original_size c Heq.
  rewrite (area_sizer_square cfg ar megapixels original_size c Heq).
  unfold square_edge.
  destruct (py_mul_float megapixels F64.million) as [a|e]; simpl; [|reflexivity].
  destruct (py_sqrt a) as [r|e]; simpl; [|reflexivity].
  destruct (py_int r) as [n|e]; simpl; reflexivity.
Qed.

(** Witness of C2: one megapixel on the 64-pixel grid and a 100 by 100
    image. *)
Lemma area_sizer_square_result_witness :
  calculate_new_size_by_pixel_area args64 (PyFloat F64.one) (PyFloat F64.one)
    (100, 100) []
  = (Ok ((1024, 1024), (100, 100), F64.one), []).
Proof.
  exact (area_sizer_square_result args64 F64.one (PyFloat F64.one) (100, 100) []
           eq_refl).
Defined.

(** ** The cache *)

Lemma SFeqb_refl (x : float) : x <> S754_nan -> F64.eqb x x = true.
Proof.
  intros Hx. unfold F64.eqb, SFeqb, SFcompare.
  destruct x as [s|s| |s m e].
  - reflexivity.
  - destruct s; reflexivity.
  - contradiction.
  - rewrite Z.compare_refl, Pos.compare_cont_refl. destruct s; reflexivity.
Qed.

Lemma is_finite_not_nan (x : float) : F64.is_finite x = true -> x <> S754_nan.
Proof. intros H E. subst x. discriminate H. Qed.

Lemma py_round_ndigits_finite (q a : float) (ndigits : Z) :
  F64.is_finite q = true -> py_round_ndigits q ndigits = Ok a ->
  F64.is_finite a = true.
Proof.
  unfold py_round_ndigits. intros Hq H.
  destruct (F64.frac q) as [[n d]|].
  - destruct (F64.is_zero q).
    + injection H as <-. exact Hq.
    + match type of H with
      | (if F64.is_finite ?y then _ else _) = _ =>
          destruct (F64.is_finite y) eqn:Hy
      end; [|discriminate H].
      injection H as <-. exact Hy.
  - injection H as <-. exact Hq.
Qed.

Lemma aspect_ratio_of_size_finite (cfg : args) (wh : size) (rounding : Z)
    (a : float) :
  calculate_image_aspect_ratio cfg (ImgTuple wh) rounding = Ok a ->
  F64.is_finite a = true.
Proof.
  unfold calculate_image_aspect_ratio. destruct wh as [w h]. intros H.
  bind_named H q Hq.
  eapply (py_round_ndigits_finite q a); [|exact H].
  unfold int_truediv in Hq. destruct (h =? 0); [discriminate|].
  match type of Hq with
  | (if F64.is_finite ?y then _ else _) = _ => destruct (F64.is_finite y) eqn:Hy
  end; [|discriminate Hq].
  injection Hq as <-. exact Hy.
Qed.

(** A resolution value for which the square edge is computed equals itself. *)
Lemma square_edge_key_refl (cfg : args) (megapixels : pynum) (edge : Z) :
  square_edge cfg megapixels = Ok edge -> py_eqb megapixels megapixels = true.
Proof.
  destruct megapixels as [z|x]; simpl; intros H.
  - apply Z.eqb_refl.
  - apply SFeqb_refl. intros ->. vm_compute in H. discriminate H.
Qed.

Lemma get_set_resolution (c : resolution_cache) (megapixels : pynum) (k : float)
    (resolution : size) :
  key_eqb (megapixels, k) (megapixels, k) = true ->
  get_resolution_by_aspect (set_resolution_by_aspect c megapixels k resolution)
    megapixels k = Some resolution.
Proof.
  intros Hrefl. induction c as [|[key v] c IH]; simpl.
  - rewrite Hrefl. reflexivity.
  - destruct (key_eqb key (megapixels, k)) eqn:Hk; simpl; rewrite Hk.
    + reflexivity.
    + exact IH.
Qed.

(** C4: when the area sizer returns on an aspect ratio other than 1.0, a
    second run with the same megapixels and aspect ratio on the cache the
    first run left, for any original size, returns too, with the same target
    (and the same intermediary size and aspect ratio), and leaves the cache
    unchanged. *)
Theorem area_sizer_second_run :
  forall (cfg : args) (ar : float) (megapixels : pynum)
         (original_size1 original_size2 target intermediary : size)
         (aspect : float) (c0 c1 : resolution_cache),
    F64.eqb ar F64.one = false ->
    calculate_new_size_by_pixel_area cfg (PyFloat ar) megapixels original_size1 c0
      = (Ok (target, intermediary, aspect), c1) ->
    calculate_new_size_by_pixel_area cfg (PyFloat ar) megapixels original_size2 c1
      = (Ok (target, intermediary, aspect), c1).
Proof.
  intros cfg ar megapixels original_size1 original_size2 target intermediary
         aspect c0 c1 Hne H.
  apply area_sizer_inv in H; [|exact Hne].
  destruct H as (edge & Wt & Ht & k0 & Wi & Hi & He & Hct & Hfi & Hk & Hr & Hg).
  assert (Hhit : get_resolution_by_aspect c1 megapixels aspect = Some target).
  { destruct Hg as [[Hg ->]|[Hg [-> ->]]]; [exact Hg|].
    apply get_set_resolution. unfold key_eqb. simpl.
    rewrite (square_edge_key_refl cfg megapixels edge He). simpl.
    apply SFeqb_refl, is_finite_not_nan.
    exact (aspect_ratio_of_size_finite cfg (Wt, Ht) default_rounding aspect Hk). }
  rewrite (area_sizer_run cfg ar megapixels original_size2 c1 edge Wt Ht Wi Hi
             k0 aspect Hne He Hct Hfi Hk).
  rewrite Hhit, Hr. reflexivity.
Qed.

(** Witness of C4: one megapixel on the 64-pixel grid, aspect ratio 1.5,
    first a 2000 by 1000 image on an empty cache, then a 3000 by 2000 one. *)
Lemma area_sizer_second_run_witness :
  calculate_new_size_by_pixel_area args64 (PyFloat one_and_a_half)
    (PyFloat F64.one) (3000, 2000)
    [((PyFloat F64.one, S754_finite false 6935543426150564 (-52)), (1280, 832))]
  = (Ok ((1280, 832), (1280, 853), S754_finite false 6935543426150564 (-52)),
     [((PyFloat F64.one, S754_finite false 6935543426150564 (-52)), (1280, 832))]).
Proof.
  apply (area_sizer_second_run args64 one_and_a_half (PyFloat F64.one)
           (2000, 1000) (3000, 2000) (1280, 832) (1280, 853)
           (S754_finite false 6935543426150564 (-52)) []).
  - vm_compute. reflexivity.
  - vm_compute. reflexivity.
Defined.

(** C9: on an aspect ratio other than 1.0, the area sizer returns the same
    result and leaves the same cache for any two original sizes. *)
Theorem area_sizer_ignores_original_size :
  forall (cfg : args) (aspect_ratio megapixels : pynum)
         (original_size1 original_size2 : size) (c : resolution_cache),
    py_eqb aspect_ratio (PyFloat F64.one) = false ->
    calculate_new_size_by_pixel_area cfg aspect_ratio megapixels original_size1 c
    = calculate_new_size_by_pixel_area cfg aspect_ratio megapixels original_size2 c.
Proof.
  intros cfg aspect_ratio megapixels [W1 H1] [W2 H2] c Hne.
  destruct aspect_ratio as [z|ar]; [reflexivity|].
  simpl in Hne.
  unfold calculate_new_size_by_pixel_area, M_bind, M_lift.
  destruct (square_edge cfg megapixels) as [edge|e]; [|reflexivity].
  rewrite Hne. reflexivity.
Qed.

(** Witness of C9: a 2000 by 1000 and a 4000 by 3000 image at aspect ratio
    1.5 and one megapixel. *)
Lemma area_sizer_ignores_original_size_witness :
  calculate_new_size_by_pixel_area args64 (PyFloat one_and_a_half)
    (PyFloat F64.one) (2000, 1000) []
  = calculate_new_size_by_pixel_area args64 (PyFloat one_and_a_half)
      (PyFloat F64.one) (4000, 3000) [].
Proof.
  apply (area_sizer_ignores_original_size args64 (PyFloat one_and_a_half)
           (PyFloat F64.one) (2000, 1000) (4000, 3000) []).
  vm_compute. reflexivity.
Defined.

(** ** A cache hit that the repair does not cover *)

(** X1: the area sizer can return an intermediary size smaller than the
    target on a cache it filled itself.  On the 8-pixel grid at two
    megapixels the aspect ratios 1.01705 and 1.0172 give the targets
    (1432, 1408) and (1432, 1400), both of rounded ratio 1.02; after a run
    on the first, a run on the second takes the stored target (1432, 1408)
    and repairs its intermediary size to (1432, 1407) only.  The theorem on
    C1 leaves such cache hits out. *)
Lemma area_sizer_cache_hit_not_covered :
  exists c1 aspect,
    calculate_new_size_by_pixel_area args8 (PyFloat (decimal 101705 100000))
      (PyFloat (F64.of_Z 2)) (2034, 2000) []
    = (Ok ((1432, 1408), (1432, 1408), aspect), c1) /\
    calculate_new_size_by_pixel_area args8 (PyFloat (decimal 10172 10000))
      (PyFloat (F64.of_Z 2)) (2543, 2500) c1
    = (Ok ((1432, 1408), (1432, 1407), aspect), c1) /\
    ~ covers (1432, 1407) (1432, 1408).
Proof.
  eexists. eexists. split; [vm_compute; reflexivity|].
  split; [vm_compute; reflexivity|].
  unfold covers. simpl. lia.
Qed.

(** * Further properties *)

(** ** The interval adjuster, again *)

Lemma adjust_resolution_delta (W H Wt Ht : Z) :
  adjust_resolution_to_bucket_interval (W, H) (Wt, Ht)
  = (W + Z.max 0 (Z.max (Wt - W) (Ht - H)),
     H + Z.max 0 (Z.max (Wt - W) (Ht - H))).
Proof.
  unfold adjust_resolution_to_bucket_interval.
  destruct ((Wt - W >? 0) && ((Wt - W >? Ht - H) || (Wt - W =? Ht - H))) eqn:E1.
  - apply andb_true_iff in E1. destruct E1 as [Hp Hd].
    apply orb_true_iff in Hd. f_equal; destruct Hd; lia.
  - destruct ((Ht - H >? 0) && (Ht - H >? Wt - W)) eqn:E2.
    + apply andb_true_iff in E2. f_equal; lia.
    + apply andb_false_iff in E1. apply andb_false_iff in E2.
      rewrite orb_false_iff in E1. f_equal; lia.
Qed.

(** X2: [adjust_resolution_to_bucket_interval] adds one and the same amount
    to both dimensions, the largest of 0 and the two differences to the
    target; so it returns the initial size exactly when that one covers the
    target, and adjusting an adjusted size changes nothing. *)
Theorem adjust_resolution_to_bucket_interval_delta :
  forall initial target : size,
    let delta :=
      Z.max 0 (Z.max (fst target - fst initial) (snd target - snd initial)) in
    adjust_resolution_to_bucket_interval initial target
      = (fst initial + delta, snd initial + delta) /\
    (adjust_resolution_to_bucket_interval initial target = initial
       <-> covers initial target) /\
    adjust_resolution_to_bucket_interval
      (adjust_resolution_to_bucket_interval initial target) target
      = adjust_resolution_to_bucket_interval initial target.
Proof.
  intros [W H] [Wt Ht] delta. simpl in delta.
  split; [apply adjust_resolution_delta|].
  split.
  - rewrite adjust_resolution_delta. fold delta. unfold covers. simpl.
    split.
    + intros E. injection E as E1 E2. lia.
    + intros [H1 H2]. f_equal; lia.
  - rewrite !adjust_resolution_delta. fold delta. f_equal; lia.
Qed.

(** ** The edge sizer, again *)

(** X3: the edge sizer rounds the two dimensions of the initial size to the
    alignment grid for the target, and its intermediary size is what
    [adjust_resolution_to_bucket_interval] makes of the initial size and that
    target. *)
Theorem edge_sizer_adjusts_initial_size :
  forall (cfg : args) (aspect_ratio : float) (resolution : Z) (original_size : size),
    calculate_new_size_by_pixel_edge cfg (PyFloat aspect_ratio) (PyInt resolution)
      original_size
    = ('(W_initial, H_initial) <-
         initial_size_by_pixel_edge aspect_ratio resolution original_size ;;
       W_adjusted <- _round_to_nearest_multiple cfg (PyInt W_initial) ;;
       H_adjusted <- _round_to_nearest_multiple cfg (PyInt H_initial) ;;
       adjusted_aspect_ratio <-
         calculate_image_aspect_ratio cfg (ImgTuple (W_adjusted, H_adjusted))
           default_rounding ;;
       Ok ((W_adjusted, H_adjusted),
           adjust_resolution_to_bucket_interval (W_initial, H_initial)
             (W_adjusted, H_adjusted),
           adjusted_aspect_ratio))%res.
Proof.
  intros cfg ar r [W_original H_original].
  unfold calculate_new_size_by_pixel_edge, initial_size_by_pixel_edge.
  match goal with
  | |- res_bind ?i _ = res_bind ?j _ => change j with i; destruct i as [[Wi Hi]|e]
  end; cbn [res_bind]; [|reflexivity].
  destruct (_round_to_nearest_multiple cfg (PyInt Wi)) as [Wa|e]; cbn [res_bind];
    [|reflexivity].
  destruct (_round_to_nearest_multiple cfg (PyInt Hi)) as [Ha|e]; cbn [res_bind];
    [|reflexivity].
  rewrite adjust_resolution_delta.
  assert (Hrepair :
            (if (Wi <? Wa) || (Hi <? Ha)
             then (Wi + Z.max (Wa - Wi) (Ha - Hi), Hi + Z.max (Wa - Wi) (Ha - Hi))
             else (Wi, Hi))
            = (Wi + Z.max 0 (Z.max (Wa - Wi) (Ha - Hi)),
               Hi + Z.max 0 (Z.max (Wa - Wi) (Ha - Hi)))).
  { destruct ((Wi <? Wa) || (Hi <? Ha)) eqn:Hc.
    - apply orb_true_iff in Hc. f_equal; destruct Hc; lia.
    - apply orb_false_iff in Hc. f_equal; lia. }
  rewrite <- Hrepair.
  destruct ((Wi <? Wa) || (Hi <? Ha)); reflexivity.
Qed.

(** X4: of the original size the edge sizer uses only whether the width is
    below the height. *)
Theorem edge_sizer_orientation_only :
  forall (cfg : args) (aspect_ratio resolution : pynum)
         (original_size1 original_size2 : size),
    (fst original_size1 <? snd original_size1)
      = (fst original_size2 <? snd original_size2) ->
    calculate_new_size_by_pixel_edge cfg aspect_ratio resolution original_size1
    = calculate_new_size_by_pixel_edge cfg aspect_ratio resolution original_size2.
Proof.
  intros cfg aspect_ratio resolution [W1 H1] [W2 H2] Ho. simpl in Ho.
  unfold calculate_new_size_by_pixel_edge.
  destruct aspect_ratio as [?|ar]; [reflexivity|].
  destruct resolution as [r|?]; [|reflexivity].
  rewrite Ho. reflexivity.
Qed.

(** Witness of X4: a 2000 by 1000 and a 640 by 480 image. *)
Lemma edge_sizer_orientation_only_witness :
  calculate_new_size_by_pixel_edge args64 (PyFloat one_and_a_half) (PyInt 1000)
    (2000, 1000)
  = calculate_new_size_by_pixel_edge args64 (PyFloat one_and_a_half) (PyInt 1000)
      (640, 480).
Proof.
  apply (edge_sizer_orientation_only args64 (PyFloat one_and_a_half) (PyInt 1000)
           (2000, 1000) (640, 480)).
  reflexivity.
Defined.

(** ** The alignment rounder, again *)

Lemma rne_div_nonpos (n d : Z) : 0 < d -> n <= 0 -> F64.rne_div n d <= 0.
Proof.
  intros Hd Hn. pose proof (rne_div_bounds n d Hd) as Hb.
  destruct (Z_lt_le_dec 0 (F64.rne_div n d)) as [Hpos|Hle]; [|exact Hle].
  assert (d <= F64.rne_div n d * d) by nia. lia.
Qed.

Lemma frac_nonpos (x : float) (n d : Z) :
  F64.sign x = true \/ F64.is_zero x = true ->
  F64.frac x = Some (n, d) -> n <= 0.
Proof.
  destruct x as [s|s| |s m e]; unfold F64.frac, F64.sign, F64.is_zero;
    intros Hs H; try discriminate.
  - injection H as <- <-. lia.
  - destruct Hs as [->|Hs]; [|discriminate Hs].
    unfold cond_Zopp in H.
    destruct (Z.leb_spec 0 e); injection H as Hn Hd; subst n.
    + assert (G : Z.neg m * 2 ^ e <= 0).
      { assert (0 < 2 ^ e) by (apply Z.pow_pos_nonneg; lia). nia. }
      exact G.
    + assert (G : Z.neg m <= 0) by lia. exact G.
Qed.

Lemma py_round_nonpos (x : float) (r : Z) :
  F64.sign x = true \/ F64.is_zero x = true -> py_round x = Ok r -> r <= 0.
Proof.
  intros Hs H. apply py_round_Ok in H. destruct H as (n & d & Hf & Hd & ->).
  apply rne_div_nonpos; [exact Hd|]. exact (frac_nonpos x n d Hs Hf).
Qed.

Lemma div_nonpos (x y : float) :
  F64.sign x = true \/ F64.is_zero x = true ->
  F64.sign y = false -> F64.is_finite y = true -> F64.is_zero y = false ->
  F64.div x y = S754_nan \/
  F64.sign (F64.div x y) = true \/ F64.is_zero (F64.div x y) = true.
Proof.
  intros Hx Hy Hfin Hnz.
  destruct x as [sx|sx| |sx mx ex].
  - destruct y as [sy|sy| |sy my ey]; try discriminate.
    right. right. reflexivity.
  - destruct Hx as [Hx|Hx]; [|discriminate Hx].
    destruct (div_sign (S754_infinity sx) y) as [E|E]; [left; exact E|].
    right. left. rewrite E, Hy. simpl. simpl in Hx. rewrite Hx. reflexivity.
  - destruct Hx as [Hx|Hx]; discriminate Hx.
  - destruct Hx as [Hx|Hx]; [|discriminate Hx].
    destruct (div_sign (S754_finite sx mx ex) y) as [E|E]; [left; exact E|].
    right. left. rewrite E, Hy. simpl. simpl in Hx. rewrite Hx. reflexivity.
Qed.

(** X5: the floor of one unit.  With a positive alignment unit, a result of
    the rounder on a value that is zero, negative or a float with its sign
    bit set is exactly one unit. *)
Theorem round_to_nearest_multiple_floor :
  forall (cfg : args) (value : pynum) (out : Z),
    0 < aspect_bucket_alignment cfg ->
    non_positive value ->
    _round_to_nearest_multiple cfg value = Ok out ->
    out = aspect_bucket_alignment cfg.
Proof.
  intros cfg value out Hu Hv H.
  apply round_to_nearest_multiple_Ok in H. destruct H as (q & r & Hq & Hr & ->).
  remember (aspect_bucket_alignment cfg) as u.
  assert (Hqn : F64.sign q = true \/ F64.is_zero q = true).
  { destruct value as [z|x]; simpl in Hv.
    - unfold py_truediv, int_truediv in Hq.
      destruct (u =? 0); [discriminate|].
      destruct (F64.is_finite _) eqn:Hfin; [|discriminate]. injection Hq as Hq.
      destruct u as [|pu|pu]; try lia.
      destruct (div_nonpos (F64.exact false z) (F64.exact false (Zpos pu)))
        as [E|E]; try reflexivity.
      + destruct z; [right; reflexivity | lia | left; reflexivity].
      + rewrite E in Hfin. discriminate Hfin.
      + rewrite Hq in E. exact E.
    - unfold py_truediv in Hq. simpl in Hq.
      bind_named Hq y Hy. unfold float_truediv in Hq.
      destruct (F64.is_zero y) eqn:Hz; [discriminate|]. injection Hq as Hq.
      pose proof (float_of_int_sign u y Hu Hy) as Hsy.
      assert (Hfy : F64.is_finite y = true).
      { unfold float_of_int in Hy.
        destruct (F64.is_finite (F64.of_Z u)) eqn:Hf; [|discriminate].
        injection Hy as <-. exact Hf. }
      destruct (div_nonpos x y Hv Hsy Hfy Hz) as [E|E].
      + rewrite Hq in E. rewrite E in Hr. discriminate Hr.
      + rewrite Hq in E. exact E. }
  pose proof (py_round_nonpos q r Hqn Hr) as Hr0.
  assert (r * u <= 0) by nia. lia.
Qed.

(** Witness of X5: -1000 on the 64-pixel grid. *)
Lemma round_to_nearest_multiple_floor_witness :
  64 = aspect_bucket_alignment args64.
Proof.
  apply (round_to_nearest_multiple_floor args64 (PyInt (-1000)) 64).
  - reflexivity.
  - simpl. lia.
  - vm_compute. reflexivity.
Defined.

(** X6: with an alignment unit of zero the rounder raises
    [ZeroDivisionError] on every value, and neither sizer returns a result;
    the area sizer leaves the cache as it was. *)
Theorem zero_alignment_raises :
  forall cfg : args,
    aspect_bucket_alignment cfg = 0 ->
    (forall value, _round_to_nearest_multiple cfg value = Err ZeroDivisionError) /\
    (forall aspect_ratio resolution original_size,
        exists e,
          calculate_new_size_by_pixel_edge cfg aspect_ratio resolution original_size
            = Err e) /\
    (forall aspect_ratio megapixels original_size c,
        exists e,
          calculate_new_size_by_pixel_area cfg aspect_ratio megapixels original_size c
            = (Err e, c)).
Proof.
  intros cfg Hu.
  assert (Hround : forall value,
             _round_to_nearest_multiple cfg value = Err ZeroDivisionError).
  { intros value. unfold _round_to_nearest_multiple. rewrite Hu.
    destruct value as [z|x]; reflexivity. }
  split; [exact Hround|]. split.
  - intros aspect_ratio resolution [W_original H_original].
    unfold calculate_new_size_by_pixel_edge.
    destruct aspect_ratio as [?|ar]; [eexists; reflexivity|].
    destruct resolution as [r|?]; [|eexists; reflexivity].
    match goal with
    | |- exists e, res_bind ?i _ = _ => destruct i as [[Wi Hi]|e]
    end; cbn [res_bind]; [|eexists; reflexivity].
    rewrite Hround. eexists. reflexivity.
  - intros aspect_ratio megapixels original_size c.
    unfold calculate_new_size_by_pixel_area.
    destruct aspect_ratio as [?|ar]; [eexists; reflexivity|].
    unfold M_bind, M_lift, square_edge.
    destruct (py_mul_float megapixels F64.million) as [a|e]; cbn [res_bind];
      [|eexists; reflexivity].
    destruct (py_sqrt a) as [root|e]; cbn [res_bind]; [|eexists; reflexivity].
    destruct (py_int root) as [n|e]; cbn [res_bind]; [|eexists; reflexivity].
    rewrite Hround. eexists. reflexivity.
Qed.

(** Witness of X6: the settings with unit 0 and the value 1000. *)
Lemma zero_alignment_raises_witness :
  _round_to_nearest_multiple
    {| aspect_bucket_alignment := 0; aspect_bucket_rounding := None |} (PyInt 1000)
  = Err ZeroDivisionError.
Proof.
  exact (proj1 (zero_alignment_raises
                  {| aspect_bucket_alignment := 0; aspect_bucket_rounding := None |}
                  eq_refl) (PyInt 1000)).
Defined.

(** ** The sizers and the cache *)

Lemma set_resolution_on_miss (c : resolution_cache) (megapixels : pynum)
    (k : float) (resolution : size) :
  get_resolution_by_aspect c megapixels k = None ->
  set_resolution_by_aspect c megapixels k resolution
  = c ++ [((megapixels, k), resolution)].
Proof.
  induction c as [|[key v] c IH]; simpl; intros Hg.
  - reflexivity.
  - destruct (key_eqb key (megapixels, k)); [discriminate Hg|].
    rewrite (IH Hg). reflexivity.
Qed.

Lemma get_resolution_app (c l : resolution_cache) (megapixels : pynum)
    (k : float) (v : size) :
  get_resolution_by_aspect c megapixels k = Some v ->
  get_resolution_by_aspect (c ++ l) megapixels k = Some v.
Proof.
  induction c as [|[key w] c IH]; simpl; intros Hg.
  - discriminate Hg.
  - destruct (key_eqb key (megapixels, k)); [exact Hg | exact (IH Hg)].
Qed.

(** What a call of the area sizer does to the cache. *)
Lemma area_sizer_cache_step (cfg : args) (aspect_ratio megapixels : pynum)
    (original_size : size) (c c' : resolution_cache)
    (r : res (size * size * float)) :
  calculate_new_size_by_pixel_area cfg aspect_ratio megapixels original_size c
    = (r, c') ->
  c' = c \/
  exists target intermediary aspect,
    r = Ok (target, intermediary, aspect) /\
    get_resolution_by_aspect c megapixels aspect = None /\
    c' = c ++ [((megapixels, aspect), target)].
Proof.
  intros H. destruct aspect_ratio as [z|ar].
  { injection H as _ <-. left. reflexivity. }
  destruct (F64.eqb ar F64.one) eqn:Hne.
  { rewrite (area_sizer_square cfg ar megapixels original_size c Hne) in H.
    injection H as _ <-. left. reflexivity. }
  destruct (square_edge cfg megapixels) as [edge|e] eqn:He.
  2:{ unfold calculate_new_size_by_pixel_area, M_bind, M_lift in H.
      rewrite He in H. injection H as _ <-. left. reflexivity. }
  destruct (computed_target cfg ar edge) as [[[W_target H_target] k0]|e] eqn:Ht.
  2:{ unfold calculate_new_size_by_pixel_area, M_bind, M_lift in H.
      rewrite He in H. destruct original_size. rewrite Hne, Ht in H.
      injection H as _ <-. left. reflexivity. }
  destruct (first_intermediary ar W_target H_target)
    as [[W_intermediary H_intermediary]|e] eqn:Hi.
  2:{ unfold calculate_new_size_by_pixel_area, M_bind, M_lift in H.
      rewrite He in H. destruct original_size. rewrite Hne, Ht, Hi in H.
      injection H as _ <-. left. reflexivity. }
  destruct (calculate_image_aspect_ratio cfg (ImgTuple (W_target, H_target))
              default_rounding) as [k|e] eqn:Hk.
  2:{ unfold calculate_new_size_by_pixel_area, M_bind, M_lift in H.
      rewrite He in H. destruct original_size. rewrite Hne, Ht, Hi, Hk in H.
      injection H as _ <-. left. reflexivity. }
  rewrite (area_sizer_run cfg ar megapixels original_size c edge W_target H_target
             W_intermediary H_intermediary k0 k Hne He Ht Hi Hk) in H.
  destruct (get_resolution_by_aspect c megapixels k) as [stored|] eqn:Hg.
  - destruct (repair_intermediary ar (fst stored) (snd stored) _ _);
      injection H as _ <-; left; reflexivity.
  - destruct (repair_intermediary ar W_target H_target _ _) as [i|e].
    + injection H as <- <-. right.
      exists (W_target, H_target), i, k.
      split; [reflexivity|]. split; [exact Hg|].
      apply set_resolution_on_miss. exact Hg.
    + injection H as _ <-. left. reflexivity.
Qed.

(** X7: whichever sizer [resize_helpers] gives, a call that raises leaves
    the cache as it was, a call that returns leaves it as it was or with one
    entry appended, for the resolution and the returned aspect ratio and
    holding the returned target, and every lookup that found a size before
    the call finds the same size after it. *)
Theorem resize_helpers_cache_append_only :
  forall (resolution_type : string) (helper : resize_helper) (cfg : args)
         (aspect_ratio resolution : pynum) (original_size : size)
         (c c' : resolution_cache) (r : res (size * size * float)),
    resize_helpers resolution_type = Some helper ->
    helper cfg aspect_ratio resolution original_size c = (r, c') ->
    (forall e, r = Err e -> c' = c) /\
    (c' = c \/
     exists target intermediary aspect,
       r = Ok (target, intermediary, aspect) /\
       c' = c ++ [((resolution, aspect), target)]) /\
    (forall megapixels k v,
        get_resolution_by_aspect c megapixels k = Some v ->
        get_resolution_by_aspect c' megapixels k = Some v).
Proof.
  intros resolution_type helper cfg aspect_ratio resolution original_size c c' r
         Hh H.
  assert (Hstep : c' = c \/
            exists target intermediary aspect,
              r = Ok (target, intermediary, aspect) /\
              get_resolution_by_aspect c resolution aspect = None /\
              c' = c ++ [((resolution, aspect), target)]).
  { unfold resize_helpers in Hh.
    destruct (String.eqb resolution_type "pixel").
    - injection Hh as <-. unfold M_lift in H. injection H as _ <-.
      left. reflexivity.
    - destruct (String.eqb resolution_type "area"); [|discriminate Hh].
      injection Hh as <-. eapply area_sizer_cache_step. exact H. }
  repeat split.
  - intros e ->. destruct Hstep as [E|(t & i & a & E & _)];
      [exact E | discriminate E].
  - destruct Hstep as [E|(t & i & a & E & _ & E')]; [left; exact E|].
    right. exists t, i, a. split; assumption.
  - intros megapixels k v Hg.
    destruct Hstep as [->|(t & i & a & _ & _ & ->)]; [exact Hg|].
    apply get_resolution_app. exact Hg.
Qed.

(** Witness of X7: the area sizer at one megapixel and aspect ratio 1.5 on
    an empty cache. *)
Lemma resize_helpers_cache_append_only_witness :
  (forall e,
      Ok ((1280, 832), (1280, 853), S754_finite false 6935543426150564 (-52))
        = Err e ->
      [((PyFloat F64.one, S754_finite false 6935543426150564 (-52)), (1280, 832))]
        = []) /\
  ([((PyFloat F64.one, S754_finite false 6935543426150564 (-52)), (1280, 832))]
     = [] \/
   exists target intermediary aspect,
     Ok ((1280, 832), (1280, 853), S754_finite false 6935543426150564 (-52))
       = Ok (target, intermediary, aspect) /\
     [((PyFloat F64.one, S754_finite false 6935543426150564 (-52)), (1280, 832))]
       = [] ++ [((PyFloat F64.one, aspect), target)]) /\
  (forall megapixels k v,
      get_resolution_by_aspect [] megapixels k = Some v ->
      get_resolution_by_aspect
        [((PyFloat F64.one, S754_finite false 6935543426150564 (-52)), (1280, 832))]
        megapixels k = Some v).
Proof.
  apply (resize_helpers_cache_append_only "area" calculate_new_size_by_pixel_area
           args64 (PyFloat one_and_a_half) (PyFloat F64.one) (2000, 1000) []).
  - reflexivity.
  - vm_compute. reflexivity.
Defined.

(** X8: after a run of the area sizer that returns on an aspect ratio other
    than 1.0, the cache maps the resolution and the returned aspect ratio to
    the returned target. *)
Theorem area_sizer_target_cached :
  forall (cfg : args) (ar : float) (megapixels : pynum) (original_size : size)
         (target intermediary : size) (aspect : float) (c c' : resolution_cache),
    F64.eqb ar F64.one = false ->
    calculate_new_size_by_pixel_area cfg (PyFloat ar) megapixels original_size c
      = (Ok (target, intermediary, aspect), c') ->
    get_resolution_by_aspect c' megapixels aspect = Some target.
Proof.
  intros cfg ar megapixels original_size target intermediary aspect c c' Hne H.
  apply area_sizer_inv in H; [|exact Hne].
  destruct H as (edge & Wt & Ht & k0 & Wi & Hi & He & Hct & Hfi & Hk & Hr & Hg).
  destruct Hg as [[Hg ->]|[Hg [-> ->]]]; [exact Hg|].
  apply get_set_resolution. unfold key_eqb. simpl.
  rewrite (square_edge_key_refl cfg megapixels edge He). simpl.
  apply SFeqb_refl, is_finite_not_nan.
  exact (aspect_ratio_of_size_finite cfg (Wt, Ht) default_rounding aspect Hk).
Qed.

(** Witness of X8: one megapixel and aspect ratio 1.5 on an empty cache. *)
Lemma area_sizer_target_cached_witness :
  get_resolution_by_aspect
    [((PyFloat F64.one, S754_finite false 6935543426150564 (-52)), (1280, 832))]
    (PyFloat F64.one) (S754_finite false 6935543426150564 (-52))
  = Some (1280, 832).
Proof.
  apply (area_sizer_target_cached args64 one_and_a_half (PyFloat F64.one)
           (2000, 1000) (1280, 832) (1280, 853)
           (S754_finite false 6935543426150564 (-52)) []).
  - vm_compute. reflexivity.
  - vm_compute. reflexivity.
Defined.

(** ** Exact quotients

    The float division of an integer multiple [k * u] by [u] is [k] itself
    when [k] has at most 53 bits: the quotient of the mantissas is exact and
    rounding has nothing to drop. *)

Lemma div_eucl_exact (a b : Z) :
  0 < b -> Z.div_eucl (a * b) b = (a, 0).
Proof.
  intros Hb.
  pose proof (Z.div_eucl_eq (a * b) b ltac:(lia)) as Heq.
  pose proof (Z.mod_pos_bound (a * b) b Hb) as Hm.
  unfold Z.modulo in Hm.
  destruct (Z.div_eucl (a * b) b) as [q r].
  assert (Hr : b * (a - q) = r) by lia.
  assert (a - q = 0) by nia.
  f_equal; nia.
Qed.

Lemma div_core_self (p : positive) :
  SFdiv_core_binary 53 1024 (Zpos p) 0 (Zpos p) 0 = (2 ^ 53, -53, loc_Exact).
Proof.
  unfold SFdiv_core_binary.
  rewrite !Z.add_0_r, (Z.sub_diag (Zdigits2 (Zpos p))).
  change (Z.min (fexp 53 1024 0) (0 - 0)) with (-53).
  change (0 - 0 - -53) with 53.
  cbv iota.
  rewrite Z.shiftl_mul_pow2 by lia.
  rewrite (Z.mul_comm (Zpos p)), div_eucl_exact by lia.
  unfold new_location, new_location_even, new_location_odd.
  destruct (Z.even (Zpos p)); reflexivity.
Qed.

Lemma Zdigits2_log2 (p : positive) : Zdigits2 (Zpos p) = Z.log2 (Zpos p) + 1.
Proof.
  unfold Zdigits2.
  assert (H : forall q, digits2_pos q = Pos.size q).
  { induction q; simpl; congruence. }
  rewrite H. destruct p; simpl; lia.
Qed.

Lemma shr_fexp_none (m e : Z) (l : location) :
  fexp 53 1024 (Zdigits2 m + e) = e ->
  shr_fexp 53 1024 m e l = (shr_record_of_loc m l, e).
Proof.
  intros H. unfold shr_fexp. rewrite H, Z.sub_diag. reflexivity.
Qed.

Lemma round_aux_53 (sx : bool) (p : positive) (e : Z) :
  Zdigits2 (Zpos p) = 53 -> -1074 <= e <= 971 ->
  binary_round_aux 53 1024 sx (Zpos p) e loc_Exact = S754_finite sx p e.
Proof.
  intros Hd He.
  assert (Hf : fexp 53 1024 (Zdigits2 (Zpos p) + e) = e).
  { rewrite Hd. unfold fexp, emin. lia. }
  unfold binary_round_aux.
  rewrite (shr_fexp_none (Zpos p) e loc_Exact Hf). cbn [shr_record_of_loc shr_m loc_of_shr_record round_nearest_even].
  rewrite (shr_fexp_none (Zpos p) e loc_Exact Hf). cbn [shr_record_of_loc shr_m].
  destruct (Z.leb_spec e (1024 - 53)); [reflexivity | lia].
Qed.

Lemma round_aux_54 (sx : bool) (p : positive) (e : Z) :
  Zdigits2 (Zpos p) = 53 -> -1075 <= e <= 970 ->
  binary_round_aux 53 1024 sx (Zpos p~0) e loc_Exact = S754_finite sx p (e + 1).
Proof.
  intros Hd He.
  assert (Hd' : Zdigits2 (Zpos p~0) = 54).
  { unfold Zdigits2 in *. simpl. lia. }
  assert (Hf : fexp 53 1024 (Zdigits2 (Zpos p) + (e + 1)) = e + 1).
  { rewrite Hd. unfold fexp, emin. lia. }
  unfold binary_round_aux.
  assert (Hs : shr_fexp 53 1024 (Zpos p~0) e loc_Exact
               = ({| shr_m := Zpos p; shr_r := false; shr_s := false |}, e + 1)).
  { unfold shr_fexp. rewrite Hd'.
    replace (fexp 53 1024 (54 + e) - e) with 1 by (unfold fexp, emin; lia).
    reflexivity. }
  rewrite Hs. cbn [shr_m loc_of_shr_record round_nearest_even].
  rewrite (shr_fexp_none (Zpos p) (e + 1) loc_Exact Hf). cbn [shr_record_of_loc shr_m].
  destruct (Z.leb_spec (e + 1) (1024 - 53)); [reflexivity | lia].
Qed.

Lemma div_core_multiple (pk pu : positive) :
  Zpos pk < 2 ^ 53 ->
  exists x,
    (x = Zdigits2 (Zpos pk) \/ x = Zdigits2 (Zpos pk) - 1) /\
    1 <= Zdigits2 (Zpos pk) <= 53 /\
    SFdiv_core_binary 53 1024 (Zpos (pk * pu)) 0 (Zpos pu) 0
    = (Zpos pk * 2 ^ (53 - x), x - 53, loc_Exact).
Proof.
  intros Hk.
  pose proof (Zdigits2_log2 pk) as Dk.
  pose proof (Zdigits2_log2 pu) as Du.
  pose proof (Zdigits2_log2 (pk * pu)) as D1.
  pose proof (Z.log2_nonneg (Zpos pk)) as Hk0.
  assert (Hk53 : Z.log2 (Zpos pk) < 53) by (apply Z.log2_lt_pow2; lia).
  pose proof (Z.log2_mul_below (Zpos pk) (Zpos pu) ltac:(lia) ltac:(lia)) as Hlo.
  pose proof (Z.log2_mul_above (Zpos pk) (Zpos pu) ltac:(lia) ltac:(lia)) as Hhi.
  rewrite <- Pos2Z.inj_mul in Hlo, Hhi.
  exists (Zdigits2 (Zpos (pk * pu)) - Zdigits2 (Zpos pu)).
  split; [lia|]. split; [lia|].
  unfold SFdiv_core_binary. rewrite !Z.add_0_r.
  remember (Zdigits2 (Zpos (pk * pu)) - Zdigits2 (Zpos pu)) as x.
  assert (Hx : 0 <= x <= 53) by lia.
  assert (E1 : Z.min (fexp 53 1024 x) (0 - 0) = x - 53).
  { unfold fexp, emin. lia. }
  rewrite E1.
  replace (0 - 0 - (x - 53)) with (53 - x) by lia.
  assert (Em : match 53 - x with
               | 0 => Zpos (pk * pu)
               | Zpos _ => Z.shiftl (Zpos (pk * pu)) (53 - x)
               | Zneg _ => 0
               end = Zpos pk * 2 ^ (53 - x) * Zpos pu).
  { destruct (53 - x) as [|s|s] eqn:Es.
    - rewrite Pos2Z.inj_mul. simpl (2 ^ 0). lia.
    - rewrite Z.shiftl_mul_pow2 by lia. rewrite Pos2Z.inj_mul. ring.
    - lia. }
  rewrite Em, div_eucl_exact by lia.
  unfold new_location, new_location_even, new_location_odd.
  destruct (Z.even (Zpos pu)); reflexivity.
Qed.

Lemma div_exact_multiple (pk pu : positive) :
  Zpos pk < 2 ^ 53 ->
  exists (pm : positive) (s : Z),
    0 <= s /\ Zpos pm = Zpos pk * 2 ^ s /\
    SFdiv 53 1024 (S754_finite false (pk * pu) 0) (S754_finite false pu 0)
    = S754_finite false pm (- s).
Proof.
  intros Hk.
  destruct (div_core_multiple pk pu Hk) as (x & Hx & Hd & Hcore).
  set (s := 53 - Zdigits2 (Zpos pk)).
  assert (Hs : 0 <= s) by (unfold s; lia).
  assert (Hpos : 0 < Zpos pk * 2 ^ s).
  { apply Z.mul_pos_pos; [lia|]. apply Z.pow_pos_nonneg; lia. }
  exists (Z.to_pos (Zpos pk * 2 ^ s)), s.
  split; [exact Hs|]. split; [rewrite Z2Pos.id; [reflexivity | exact Hpos]|].
  assert (Hdig : Zdigits2 (Zpos (Z.to_pos (Zpos pk * 2 ^ s))) = 53).
  { rewrite Z2Pos.id by exact Hpos.
    destruct (Zpos pk * 2 ^ s) as [|pm|pm] eqn:Epm; try lia.
    rewrite Zdigits2_log2, <- Epm, Z.log2_mul_pow2 by lia.
    unfold s. rewrite (Zdigits2_log2 pk). lia. }
  unfold SFdiv. rewrite Hcore. cbn [xorb].
  destruct Hx as [-> | ->].
  - fold s.
    replace (Zpos pk * 2 ^ s) with (Zpos (Z.to_pos (Zpos pk * 2 ^ s)))
      by (apply Z2Pos.id; exact Hpos).
    rewrite round_aux_53 by (try exact Hdig; unfold s; lia).
    f_equal. unfold s. lia.
  - replace (53 - (Zdigits2 (Zpos pk) - 1)) with (s + 1) by (unfold s; lia).
    replace (Zpos pk * 2 ^ (s + 1))
      with (Zpos (Z.to_pos (Zpos pk * 2 ^ s))~0).
    2:{ rewrite Pos2Z.inj_xO, Z2Pos.id by exact Hpos.
        rewrite Z.pow_add_r by lia. change (2 ^ 1) with 2. lia. }
    rewrite round_aux_54 by (try exact Hdig; unfold s; lia).
    f_equal. unfold s. lia.
Qed.

Lemma rne_div_exact (k d : Z) : 0 < d -> F64.rne_div (k * d) d = k.
Proof.
  intros Hd. unfold F64.rne_div.
  rewrite Z.div_mul, Z.mod_mul by lia.
  destruct (Z.compare_spec (2 * 0) d); [lia | reflexivity | lia].
Qed.

Lemma int_truediv_multiple (k u : Z) :
  0 < u -> 0 < k < 2 ^ 53 ->
  exists q d, int_truediv (k * u) u = Ok q /\ 0 < d /\ F64.frac q = Some (k * d, d).
Proof.
  intros Hu Hk.
  destruct u as [|pu|pu]; try lia. destruct k as [|pk|pk]; try lia.
  destruct (div_exact_multiple pk pu ltac:(lia)) as (pm & s & Hs & Hpm & Hdiv).
  exists (S754_finite false pm (- s)), (2 ^ s).
  split; [|split].
  - unfold int_truediv. change (Zpos pu =? 0) with false. cbv iota.
    change (F64.div (F64.exact false (Zpos pk * Zpos pu)) (F64.exact false (Zpos pu)))
      with (SFdiv 53 1024 (S754_finite false (pk * pu) 0) (S754_finite false pu 0)).
    rewrite Hdiv. reflexivity.
  - apply Z.pow_pos_nonneg; lia.
  - unfold F64.frac, cond_Zopp. destruct (Z.leb_spec 0 (- s)).
    + assert (s = 0) by lia. subst s. change (- 0) with 0.
      change (2 ^ 0) with 1 in *. f_equal. f_equal. lia.
    + rewrite Z.opp_involutive. rewrite Hpm. reflexivity.
Qed.

Lemma round_to_nearest_multiple_of_multiple (cfg : args) (k : Z) :
  0 < aspect_bucket_alignment cfg -> 0 < k < 2 ^ 53 ->
  _round_to_nearest_multiple cfg (PyInt (k * aspect_bucket_alignment cfg))
  = Ok (k * aspect_bucket_alignment cfg).
Proof.
  intros Hu Hk. unfold _round_to_nearest_multiple, py_truediv.
  destruct (int_truediv_multiple k (aspect_bucket_alignment cfg) Hu Hk)
    as (q & d & Hq & Hd & Hf).
  rewrite Hq. cbn [res_bind].
  assert (Hr : py_round q = Ok k).
  { unfold py_round. rewrite Hf.
    destruct q; try discriminate Hf; rewrite rne_div_exact by exact Hd; reflexivity. }
  rewrite Hr. cbn [res_bind]. f_equal. nia.
Qed.

(** X9: with a positive alignment unit [u], the rounder returns every
    multiple [k * u] with [0 < k < 2^53] unchanged; so rounding a result of
    the rounder below [2^53 * u] again returns it unchanged. *)
Theorem round_to_nearest_multiple_idempotent :
  forall cfg : args,
    0 < aspect_bucket_alignment cfg ->
    (forall k, 0 < k < 2 ^ 53 ->
       _round_to_nearest_multiple cfg (PyInt (k * aspect_bucket_alignment cfg))
       = Ok (k * aspect_bucket_alignment cfg)) /\
    (forall value out,
       _round_to_nearest_multiple cfg value = Ok out ->
       out < 2 ^ 53 * aspect_bucket_alignment cfg ->
       _round_to_nearest_multiple cfg (PyInt out) = Ok out).
Proof.
  intros cfg Hu. split.
  - intros k Hk. apply round_to_nearest_multiple_of_multiple; assumption.
  - intros value out H Hlt.
    destruct (round_to_nearest_multiple_aligned cfg value out Hu H)
      as [(k & Hk & ->) _].
    apply round_to_nearest_multiple_of_multiple; [exact Hu|]. nia.
Qed.

(** Witness of X9: 1024 = 16 * 64 on the 64-pixel grid, and the result 1024
    of rounding 1000. *)
Lemma round_to_nearest_multiple_idempotent_witness :
  _round_to_nearest_multiple args64 (PyInt (16 * 64)) = Ok (16 * 64) /\
  _round_to_nearest_multiple args64 (PyInt 1024) = Ok 1024.
Proof.
  assert (Hu : 0 < aspect_bucket_alignment args64) by reflexivity.
  split.
  - apply (proj1 (round_to_nearest_multiple_idempotent args64 Hu) 16). lia.
  - apply (proj2 (round_to_nearest_multiple_idempotent args64 Hu) (PyInt 1000) 1024).
    + vm_compute. reflexivity.
    + vm_compute. reflexivity.
Defined.

(** X10: when the resolution is a multiple [k * u] of a positive alignment
    unit [u] with [0 < k < 2^53], the target the edge sizer returns has the
    resolution itself as its width for an original narrower than high, and
    as its height otherwise. *)
Theorem edge_sizer_aligned_resolution :
  forall (cfg : args) (aspect_ratio : pynum) (k : Z) (original_size : size)
         (target intermediary : size) (aspect : float),
    0 < aspect_bucket_alignment cfg ->
    0 < k < 2 ^ 53 ->
    calculate_new_size_by_pixel_edge cfg aspect_ratio
      (PyInt (k * aspect_bucket_alignment cfg)) original_size
      = Ok (target, intermediary, aspect) ->
    if fst original_size <? snd original_size
    then fst target = k * aspect_bucket_alignment cfg
    else snd target = k * aspect_bucket_alignment cfg.
Proof.
  intros cfg aspect_ratio k [W_original H_original] target intermediary aspect
         Hu Hk H.
  pose proof (round_to_nearest_multiple_of_multiple cfg k Hu Hk) as Hfix.
  unfold calculate_new_size_by_pixel_edge in H.
  destruct aspect_ratio as [?|ar]; [discriminate|].
  cbn [fst snd].
  destruct (W_original <? H_original).
  - bind_named H initial Hinit. destruct initial as [W_initial H_initial].
    bind_named Hinit q Hq. bind_named Hinit z Hz. injection Hinit as <- <-.
    bind_named H W_adjusted HW. bind_named H H_adjusted HH.
    rewrite Hfix in HW. injection HW as <-.
    destruct (_ || _); bind_named H a Ha; injection H as <- _ _; reflexivity.
  - bind_named H initial Hinit. destruct initial as [W_initial H_initial].
    bind_named Hinit q Hq. bind_named Hinit z Hz. injection Hinit as <- <-.
    bind_named H W_adjusted HW. bind_named H H_adjusted HH.
    rewrite Hfix in HH. injection HH as <-.
    destruct (_ || _); bind_named H a Ha; injection H as <- _ _; reflexivity.
Qed.

(** Witness of X10: 1024 = 16 * 64 pixels on a 2000 by 1000 image of aspect
    ratio 1.5; the target is (1536, 1024). *)
Lemma edge_sizer_aligned_resolution_witness :
  snd (1536, 1024) = 16 * aspect_bucket_alignment args64.
Proof.
  apply (edge_sizer_aligned_resolution args64 (PyFloat one_and_a_half) 16
           (2000, 1000) (1536, 1024) (1536, 1024)
           (S754_finite false 6755399441055744 (-52))).
  - reflexivity.
  - lia.
  - vm_compute. reflexivity.
Defined.

(** ** Square sizes *)

Lemma div_self (s : bool) (p : positive) :
  F64.div (S754_finite s p 0) (S754_finite s p 0) = F64.one.
Proof.
  unfold F64.div, SFdiv, F64.prec, F64.emax. rewrite div_core_self.
  destruct s; vm_compute; reflexivity.
Qed.

Lemma int_truediv_self (w : Z) : w <> 0 -> int_truediv w w = Ok F64.one.
Proof.
  intros Hw. unfold int_truediv.
  destruct (Z.eqb_spec w 0) as [E|_]; [contradiction|].
  destruct w as [|p|p]; [contradiction| |]; simpl F64.exact;
    rewrite div_self; reflexivity.
Qed.

Lemma py_round_ndigits_one (ndigits : Z) :
  0 <= ndigits -> py_round_ndigits F64.one ndigits = Ok F64.one.
Proof.
  intros Hn. unfold py_round_ndigits.
  change (F64.frac F64.one) with (Some (2 ^ 52, 2 ^ 52)).
  change (F64.is_zero F64.one) with false. cbv iota.
  destruct (Z.leb_spec 0 ndigits) as [_|]; [|lia].
  rewrite (Z.mul_comm (2 ^ 52)), rne_div_exact by lia.
  change (F64.sign F64.one) with false.
  assert (Hp : 0 < 10 ^ ndigits) by (apply Z.pow_pos_nonneg; lia).
  destruct (10 ^ ndigits) as [|p|p]; try lia.
  simpl F64.exact. rewrite div_self. reflexivity.
Qed.

(** X11: for a square size with a side other than zero, at any rounding
    precision that is not negative, [calculate_image_aspect_ratio] returns
    exactly 1.0, the value on which the area sizer takes its square branch. *)
Theorem calculate_image_aspect_ratio_square :
  forall (cfg : args) (w rounding : Z),
    w <> 0 ->
    0 <= precision_in_force cfg rounding ->
    calculate_image_aspect_ratio cfg (ImgTuple (w, w)) rounding = Ok F64.one /\
    calculate_image_aspect_ratio cfg (ImgImage (w, w)) rounding = Ok F64.one /\
    calculate_image_aspect_ratio cfg (ImgOther (w, w)) rounding = Ok F64.one.
Proof.
  intros cfg w rounding Hw Hp.
  unfold calculate_image_aspect_ratio. fold (precision_in_force cfg rounding).
  rewrite (int_truediv_self w Hw). cbn [res_bind].
  rewrite (py_round_ndigits_one _ Hp). repeat split.
Qed.

(** Witness of X11: a 512 by 512 image at the default precision. *)
Lemma calculate_image_aspect_ratio_square_witness :
  calculate_image_aspect_ratio args64 (ImgTuple (512, 512)) default_rounding
    = Ok F64.one /\
  calculate_image_aspect_ratio args64 (ImgImage (512, 512)) default_rounding
    = Ok F64.one /\
  calculate_image_aspect_ratio args64 (ImgOther (512, 512)) default_rounding
    = Ok F64.one.
Proof.
  apply (calculate_image_aspect_ratio_square args64 512 default_rounding).
  - lia.
  - vm_compute. discriminate.
Defined.

(** ** The aspect ratio of the returned target *)

Lemma SFeqb_cases (x y : float) :
  F64.eqb x y = true ->
  x = y \/ (F64.is_zero x = true /\ F64.is_zero y = true).
Proof.
  unfold F64.eqb, SFeqb, SFcompare.
  destruct x as [sx|sx| |sx mx ex], y as [sy|sy| |sy my ey]; intros H;
    try discriminate H;
    try (destruct sx; discriminate H); try (destruct sy; discriminate H).
  - right. split; reflexivity.
  - left. destruct sx, sy; try discriminate H; reflexivity.
  - left.
    destruct sx, sy; try discriminate H;
      destruct (Z.compare_spec ex ey) as [E|E|E]; try discriminate H; subst ey;
      destruct (Pos.compare_cont Eq mx my) eqn:Hc; try discriminate H;
      apply Pos.compare_eq in Hc; subst my; reflexivity.
Qed.

Lemma SFeqb_trans (x y z : float) :
  F64.eqb x y = true -> F64.eqb y z = true -> F64.eqb x z = true.
Proof.
  intros Hxy Hyz.
  destruct (SFeqb_cases x y Hxy) as [->|[Hx Hy]]; [exact Hyz|].
  destruct (SFeqb_cases y z Hyz) as [<-|[_ Hz]]; [exact Hxy|].
  destruct x, z; try discriminate; reflexivity.
Qed.

Lemma get_resolution_keyed (cfg : args) (c : resolution_cache)
    (megapixels : pynum) (a : float) (stored : size) :
  cache_keyed cfg c ->
  get_resolution_by_aspect c megapixels a = Some stored ->
  exists k,
    calculate_image_aspect_ratio cfg (ImgTuple stored) default_rounding = Ok k /\
    F64.eqb k a = true.
Proof.
  unfold cache_keyed. induction c as [|[key v] c IH]; simpl; intros Hc Hg.
  - discriminate Hg.
  - inversion Hc as [|? ? Hv Hc']; subst.
    destruct (key_eqb key (megapixels, a)) eqn:Hk.
    + injection Hg as <-. destruct Hv as (k & Hcalc & Hkk). simpl in Hcalc, Hkk.
      exists k. split; [exact Hcalc|].
      unfold key_eqb in Hk. apply andb_true_iff in Hk. simpl in Hk.
      exact (SFeqb_trans k (snd key) a Hkk (proj2 Hk)).
    + exact (IH Hc' Hg).
Qed.

(** X12: the aspect ratio a sizer returns is the rounded aspect ratio of the
    target it returns.  For the edge sizer always; for the area sizer, with a
    positive alignment unit and a rounding precision that is not negative,
    on a cache whose every entry sits under the rounded aspect ratio of its
    size, and the sizer leaves the cache so. *)
Theorem sizers_aspect_of_target :
  forall cfg : args,
    (forall aspect_ratio resolution original_size target intermediary aspect,
        calculate_new_size_by_pixel_edge cfg aspect_ratio resolution original_size
          = Ok (target, intermediary, aspect) ->
        calculate_image_aspect_ratio cfg (ImgTuple target) default_rounding
          = Ok aspect) /\
    (forall aspect_ratio megapixels original_size c target intermediary aspect c',
        0 < aspect_bucket_alignment cfg ->
        0 <= precision_in_force cfg default_rounding ->
        cache_keyed cfg c ->
        calculate_new_size_by_pixel_area cfg aspect_ratio megapixels original_size c
          = (Ok (target, intermediary, aspect), c') ->
        (exists k,
            calculate_image_aspect_ratio cfg (ImgTuple target) default_rounding
              = Ok k /\
            F64.eqb k aspect = true) /\
        cache_keyed cfg c').
Proof.
  intros cfg. split.
  - intros aspect_ratio resolution [W_original H_original] target intermediary
           aspect H.
    unfold calculate_new_size_by_pixel_edge in H.
    destruct aspect_ratio as [?|ar]; [discriminate|].
    destruct resolution as [r|?]; [|discriminate].
    bind_named H initial Hinit. destruct initial as [W_initial H_initial].
    bind_named H W_adjusted HW. bind_named H H_adjusted HH.
    destruct (_ || _); bind_named H a Ha; injection H as <- _ <-; exact Ha.
  - intros aspect_ratio megapixels original_size c target intermediary aspect c'
           Hu Hp Hc H.
    destruct aspect_ratio as [z|ar]; [discriminate H|].
    destruct (F64.eqb ar F64.one) eqn:Heq.
    + rewrite (area_sizer_square cfg ar megapixels original_size c Heq) in H.
      injection H as H <-.
      bind_named H edge He. injection H as <- _ <-.
      split; [|exact Hc].
      destruct (square_edge_aligned cfg megapixels edge Hu He) as (k & Hk & Hedge).
      assert (Hne : edge <> 0) by nia.
      exists F64.one. split.
      * unfold calculate_image_aspect_ratio.
        fold (precision_in_force cfg default_rounding).
        rewrite (int_truediv_self edge Hne). cbn [res_bind].
        apply py_round_ndigits_one. exact Hp.
      * destruct (SFeqb_cases ar F64.one Heq) as [->|[_ Hz]];
          [reflexivity | discriminate Hz].
    + apply area_sizer_inv in H; [|exact Heq].
      destruct H as (edge & Wt & Ht & k0 & Wi & Hi & He & Hct & Hfi & Hk & Hr & Hg).
      destruct Hg as [[Hg ->]|[Hg [-> ->]]].
      * split; [|exact Hc].
        exact (get_resolution_keyed cfg c megapixels aspect target Hc Hg).
      * assert (Hrefl : F64.eqb aspect aspect = true).
        { apply SFeqb_refl, is_finite_not_nan.
          exact (aspect_ratio_of_size_finite cfg (Wt, Ht) default_rounding aspect Hk). }
        split; [exists aspect; split; [exact Hk | exact Hrefl]|].
        rewrite (set_resolution_on_miss c megapixels aspect (Wt, Ht) Hg).
        unfold cache_keyed. apply Forall_app. split; [exact Hc|].
        constructor; [|constructor].
        exists aspect. split; [exact Hk | exact Hrefl].
Qed.

(** Witness of X12: the edge sizer at 1000 pixels and the area sizer at one
    megapixel on an empty cache, both at aspect ratio 1.5. *)
Lemma sizers_aspect_of_target_witness :
  calculate_image_aspect_ratio args64 (ImgTuple (1472, 1024)) default_rounding
    = Ok (S754_finite false 6485183463413514 (-52)) /\
  ((exists k,
       calculate_image_aspect_ratio args64 (ImgTuple (1280, 832)) default_rounding
         = Ok k /\
       F64.eqb k (S754_finite false 6935543426150564 (-52)) = true) /\
   cache_keyed args64
     [((PyFloat F64.one, S754_finite false 6935543426150564 (-52)), (1280, 832))]).
Proof.
  split.
  - apply (proj1 (sizers_aspect_of_target args64)
             (PyFloat one_and_a_half) (PyInt 1000) (2000, 1000)
             (1472, 1024) (1524, 1024)).
    vm_compute. reflexivity.
  - apply (proj2 (sizers_aspect_of_target args64)
             (PyFloat one_and_a_half) (PyFloat F64.one) (2000, 1000) []
             (1280, 832) (1280, 853)).
    + reflexivity.
    + vm_compute. discriminate.
    + constructor.
    + vm_compute. reflexivity.
Defined.

(** ** The aspect ratios the area sizer accepts *)

Lemma float_of_int_finite (z : Z) (x : float) :
  float_of_int z = Ok x -> F64.is_finite x = true.
Proof.
  unfold float_of_int. intros H.
  destruct (F64.is_finite (F64.of_Z z)) eqn:Hf; [|discriminate H].
  injection H as <-. exact Hf.
Qed.

Lemma round_to_nearest_multiple_not_finite (cfg : args) (w : float) (out : Z) :
  F64.is_finite w = false ->
  _round_to_nearest_multiple cfg (PyFloat w) <> Ok out.
Proof.
  intros Hw H. apply round_to_nearest_multiple_Ok in H.
  destruct H as (q & r & Hq & Hr & _).
  unfold py_truediv in Hq. simpl in Hq. bind_named Hq y Hy.
  pose proof (float_of_int_finite _ _ Hy) as Hfy.
  unfold float_truediv in Hq. destruct (F64.is_zero y) eqn:Hz; [discriminate|].
  injection Hq as <-.
  destruct w as [s|s| |s m e]; try discriminate Hw;
    destruct y as [sy|sy| |sy my ey]; try discriminate Hfy; try discriminate Hz;
    discriminate Hr.
Qed.

Lemma mul_not_finite (x s : float) :
  F64.is_finite x = true -> F64.is_finite s = false ->
  F64.is_finite (F64.mul x s) = false.
Proof.
  destruct x as [sx|sx| |sx mx ex], s as [ss|ss| |ss ms es]; intros Hx Hs;
    try discriminate Hx; try discriminate Hs; reflexivity.
Qed.

Lemma computed_target_finite_positive (cfg : args) (ar : float) (edge : Z)
    (r : Z * Z * float) :
  computed_target cfg ar edge = Ok r -> exists m e, ar = S754_finite false m e.
Proof.
  unfold computed_target. intros H.
  bind_named H s Hs. bind_named H w Hw. bind_named H Wt HWt.
  bind_named H s' Hs'. bind_named H h Hh. clear H.
  unfold py_mul_float in Hw. simpl in Hw. bind_named Hw x Hx. injection Hw as Hw.
  pose proof (float_of_int_finite _ _ Hx) as Hfx.
  destruct ar as [sa|sa| |sa ma ea].
  - exfalso. simpl in Hs'. injection Hs' as <-.
    unfold py_truediv in Hh. simpl in Hh. bind_named Hh y Hy. discriminate Hh.
  - exfalso. destruct sa; [discriminate Hs|]. simpl in Hs. injection Hs as <-.
    apply (round_to_nearest_multiple_not_finite cfg w Wt); [|exact HWt].
    rewrite <- Hw. apply mul_not_finite; [exact Hfx | reflexivity].
  - exfalso. simpl in Hs. injection Hs as <-.
    apply (round_to_nearest_multiple_not_finite cfg w Wt); [|exact HWt].
    rewrite <- Hw. apply mul_not_finite; [exact Hfx | reflexivity].
  - destruct sa; [discriminate Hs|]. exists ma, ea. reflexivity.
Qed.

(** X13: the area sizer returns a result only for an aspect ratio that is a
    positive finite float; for an integer, a nan, an infinity, a zero or a
    negative aspect ratio it raises. *)
Theorem area_sizer_needs_positive_aspect_ratio :
  forall (cfg : args) (aspect_ratio megapixels : pynum) (original_size : size)
         (c c' : resolution_cache) (r : size * size * float),
    calculate_new_size_by_pixel_area cfg aspect_ratio megapixels original_size c
      = (Ok r, c') ->
    exists m e, aspect_ratio = PyFloat (S754_finite false m e).
Proof.
  intros cfg aspect_ratio megapixels original_size c c' [[target intermediary] k] H.
  destruct aspect_ratio as [z|ar]; [discriminate H|].
  destruct (F64.eqb ar F64.one) eqn:Heq.
  - destruct (SFeqb_cases ar F64.one Heq) as [->|[_ Hz]]; [|discriminate Hz].
    vm_compute. eexists. eexists. reflexivity.
  - apply area_sizer_inv in H; [|exact Heq].
    destruct H as (edge & Wt & Ht & k0 & Wi & Hi & He & Hct & _).
    destruct (computed_target_finite_positive cfg ar edge _ Hct) as (m & e & ->).
    exists m, e. reflexivity.
Qed.

(** Witness of X13: aspect ratio 1.5 at one megapixel. *)
Lemma area_sizer_needs_positive_aspect_ratio_witness :
  exists m e, PyFloat one_and_a_half = PyFloat (S754_finite false m e).
Proof.
  apply (area_sizer_needs_positive_aspect_ratio args64 (PyFloat one_and_a_half)
           (PyFloat F64.one) (2000, 1000) []
           [((PyFloat F64.one, S754_finite false 6935543426150564 (-52)),
             (1280, 832))]
           ((1280, 832), (1280, 853), S754_finite false 6935543426150564 (-52))).
  vm_compute. reflexivity.
Defined.

(** X14: for every result of the area sizer on an aspect ratio other than
    1.0, when the cache holds for the bucket nothing or the target just
    computed, the intermediary size equals the target in at least one axis. *)
Theorem area_sizer_intermediary_tight :
  forall (cfg : args) (ar : float) (megapixels : pynum) (original_size : size)
         (c c' : resolution_cache) (target intermediary : size) (aspect : float),
    F64.eqb ar F64.one = false ->
    calculate_new_size_by_pixel_area cfg (PyFloat ar) megapixels original_size c
      = (Ok (target, intermediary, aspect), c') ->
    (forall edge W_target H_target k0 stored,
        square_edge cfg megapixels = Ok edge ->
        computed_target cfg ar edge = Ok (W_target, H_target, k0) ->
        get_resolution_by_aspect c megapixels aspect = Some stored ->
        stored = (W_target, H_target)) ->
    fst intermediary = fst target \/ snd intermediary = snd target.
Proof.
  intros cfg ar megapixels original_size c c' target intermediary aspect Hne H
         Hcache.
  apply area_sizer_inv in H; [|exact Hne].
  destruct H as (edge & Wt & Ht & k0 & Wi & Hi & He & Hct & Hfi & Hk & Hr & Hg).
  assert (Ht' : target = (Wt, Ht)).
  { destruct Hg as [[Hg _]|[_ [Hg _]]]; [|exact Hg].
    exact (Hcache edge Wt Ht k0 target He Hct Hg). }
  subst target. cbn [fst snd] in *.
  assert (Hfirst : Wi = Wt \/ Hi = Ht).
  { unfold first_intermediary in Hfi.
    destruct (Wt <? Ht); bind_named Hfi q Hq; bind_named Hfi z Hz;
      injection Hfi as <- <-; [left | right]; reflexivity. }
  unfold repair_intermediary in Hr.
  destruct ((Wt >? Wi) || (Ht >? Hi)) eqn:Hc.
  - bind_named Hr diffs Hd. destruct diffs as [W_diff H_diff].
    bind_named Hr mp Hmp. injection Hr as <-. cbn [fst snd].
    destruct (Wt >? Wi).
    + bind_named Hd q Hq. bind_named Hd z Hz. injection Hd as <- <-.
      left. lia.
    + bind_named Hd p Hp. bind_named Hd z Hz. injection Hd as <- <-.
      right. lia.
  - injection Hr as <-. exact Hfirst.
Qed.

(** Witness of X14: aspect ratio 1.5 at one megapixel on an empty cache;
    the widths agree. *)
Lemma area_sizer_intermediary_tight_witness :
  fst (1280, 853) = fst (1280, 832) \/ snd (1280, 853) = snd (1280, 832).
Proof.
  apply (area_sizer_intermediary_tight args64 one_and_a_half (PyFloat F64.one)
           (2000, 1000) []
           [((PyFloat F64.one, S754_finite false 6935543426150564 (-52)),
             (1280, 832))]
           (1280, 832) (1280, 853) (S754_finite false 6935543426150564 (-52))).
  - vm_compute. reflexivity.
  - vm_compute. reflexivity.
  - intros edge W_target H_target k0 stored _ _ Hg. discriminate Hg.
Defined.

(** ** The oversize check, again *)

Lemma exceeds_mono (z z' : Z) (limit : pynum) :
  z <= z' -> exceeds z limit -> exceeds z' limit.
Proof.
  unfold exceeds. intros Hz H. destruct limit as [l|x]; [lia|].
  destruct x as [s|s| |s m e]; try exact H;
    destruct H as (n & d & Hf & Hlt);
    pose proof (frac_den_pos _ n d Hf) as Hd;
    exists n, d; (split; [exact Hf | nia]).
Qed.

(** X15: the oversize check is monotone in the image size.  In mode
    "pixel" an image at least as wide and as high as one that is too large is
    too large; in mode "area" so is it when the smaller image has no negative
    dimension. *)
Theorem is_image_too_large_monotone :
  forall (w h w' h' : Z) (limit : pynum),
    w <= w' -> h <= h' ->
    (is_image_too_large (w, h) limit "pixel" = Ok true ->
     is_image_too_large (w', h') limit "pixel" = Ok true) /\
    (0 <= w -> 0 <= h ->
     is_image_too_large (w, h) limit "area" = Ok true ->
     is_image_too_large (w', h') limit "area" = Ok true).
Proof.
  intros w h w' h' limit Hw Hh. split.
  - unfold is_image_too_large. cbn [String.eqb Ascii.eqb Bool.eqb fst snd].
    intros H. injection H as H. f_equal.
    apply orb_true_iff in H. apply orb_true_iff.
    rewrite !int_gt_exceeds in *.
    destruct H as [H|H]; [left | right]; eapply exceeds_mono; eassumption.
  - intros Hw0 Hh0. unfold is_image_too_large.
    change (String.eqb "area" "pixel") with false.
    change (String.eqb "area" "area") with true.
    cbn [fst snd] in *.
    destruct (py_mul_float limit F64.million) as [target_area|e];
      cbn [res_bind]; [|discriminate].
    intros H. injection H as H. f_equal.
    rewrite int_gt_exceeds in *.
    apply (exceeds_mono (w * h) (w' * h')); [nia | exact H].
Qed.

(** Witness of X15: (5000, 3000) and (6000, 3000) against 10 pixels and
    against 10 megapixels. *)
Lemma is_image_too_large_monotone_witness :
  (is_image_too_large (5000, 3000) (PyInt 10) "pixel" = Ok true ->
   is_image_too_large (6000, 3000) (PyInt 10) "pixel" = Ok true) /\
  (0 <= 5000 -> 0 <= 3000 ->
   is_image_too_large (5000, 3000) (PyInt 10) "area" = Ok true ->
   is_image_too_large (6000, 3000) (PyInt 10) "area" = Ok true).
Proof.
  apply (is_image_too_large_monotone 5000 3000 6000 3000 (PyInt 10)); lia.
Defined.

(** X16: [is_image_too_large] raises [ValueError] on exactly the resolution
    types for which [resize_helpers] has no sizer. *)
Theorem resize_helpers_resolution_types :
  forall (resolution_type : string) (image_size : size) (resolution : pynum),
    resize_helpers resolution_type = None
    <-> is_image_too_large image_size resolution resolution_type = Err ValueError.
Proof.
  intros resolution_type image_size resolution.
  unfold resize_helpers, is_image_too_large.
  destruct (String.eqb resolution_type "pixel").
  - split; discriminate.
  - destruct (String.eqb resolution_type "area").
    + split; [discriminate|].
      unfold py_mul_float, to_float, float_of_int.
      destruct resolution as [z|x]; cbn [res_bind].
      * destruct (F64.is_finite (F64.of_Z z)); cbn [res_bind]; discriminate.
      * discriminate.
    + split; reflexivity.
Qed.

(** ** The aspect-ratio calculator, again *)

(** X17: given a size, [calculate_image_aspect_ratio] never returns a nan or
    an infinity: a result is a finite float, equal to itself under [==]. *)
Theorem calculate_image_aspect_ratio_finite :
  forall (cfg : args) (wh : size) (rounding : Z) (a : float),
    calculate_image_aspect_ratio cfg (ImgTuple wh) rounding = Ok a \/
    calculate_image_aspect_ratio cfg (ImgImage wh) rounding = Ok a \/
    calculate_image_aspect_ratio cfg (ImgOther wh) rounding = Ok a ->
    F64.is_finite a = true /\ F64.eqb a a = true.
Proof.
  intros cfg wh rounding a H.
  assert (Ht : calculate_image_aspect_ratio cfg (ImgTuple wh) rounding = Ok a).
  { destruct wh as [w h]. destruct H as [H|[H|H]]; exact H. }
  pose proof (aspect_ratio_of_size_finite cfg wh rounding a Ht) as Hf.
  split; [exact Hf|]. apply SFeqb_refl, is_finite_not_nan. exact Hf.
Qed.

(** Witness of X17: the size (1096, 912). *)
Lemma calculate_image_aspect_ratio_finite_witness :
  F64.is_finite (S754_finite false 5404319552844595 (-52)) = true /\
  F64.eqb (S754_finite false 5404319552844595 (-52))
          (S754_finite false 5404319552844595 (-52)) = true.
Proof.
  apply (calculate_image_aspect_ratio_finite args64 (1096, 912) default_rounding).
  left. vm_compute. reflexivity.
Defined.

(** ** Alignment units that are powers of two

    The float quotient of an integer below [2^53] in absolute value by a
    power of two is exact. *)

Lemma Zdigits2_pow2 (j : Z) : 0 <= j -> Zdigits2 (2 ^ j) = j + 1.
Proof.
  intros Hj. assert (Hp : 0 < 2 ^ j) by (apply Z.pow_pos_nonneg; lia).
  destruct (2 ^ j) as [|p|p] eqn:E; try lia.
  rewrite Zdigits2_log2, <- E, Z.log2_pow2 by lia. reflexivity.
Qed.

Lemma div_core_pow2 (pz pu : positive) (j : Z) :
  Zpos pz < 2 ^ 53 -> 0 <= j <= 1000 -> Zpos pu = 2 ^ j ->
  SFdiv_core_binary 53 1024 (Zpos pz) 0 (Zpos pu) 0
  = (Zpos pz * 2 ^ (54 - Zdigits2 (Zpos pz)), Zdigits2 (Zpos pz) - j - 54, loc_Exact).
Proof.
  intros Hz Hj Hu.
  pose proof (Zdigits2_log2 pz) as Dz.
  pose proof (Z.log2_nonneg (Zpos pz)) as Hz0.
  assert (Hz53 : Z.log2 (Zpos pz) < 53) by (apply Z.log2_lt_pow2; lia).
  unfold SFdiv_core_binary. rewrite !Z.add_0_r.
  assert (Du : Zdigits2 (Zpos pu) = j + 1) by (rewrite Hu; apply Zdigits2_pow2; lia).
  rewrite !Du.
  remember (Zdigits2 (Zpos pz)) as D.
  assert (E1 : Z.min (fexp 53 1024 (D - (j + 1))) (0 - 0) = D - j - 54).
  { unfold fexp, emin. lia. }
  rewrite E1.
  replace (0 - 0 - (D - j - 54)) with (54 + j - D) by lia.
  assert (Em : match 54 + j - D with
               | 0 => Zpos pz
               | Zpos _ => Z.shiftl (Zpos pz) (54 + j - D)
               | Zneg _ => 0
               end = Zpos pz * 2 ^ (54 - D) * Zpos pu).
  { destruct (54 + j - D) as [|s|s] eqn:Es; try lia.
    rewrite Z.shiftl_mul_pow2 by lia. rewrite Hu, <- Z.mul_assoc, <- Z.pow_add_r by lia.
    f_equal. f_equal. lia. }
  rewrite Em, div_eucl_exact by lia.
  unfold new_location, new_location_even, new_location_odd.
  destruct (Z.even (Zpos pu)); reflexivity.
Qed.

Lemma div_pow2 (sz : bool) (pz pu : positive) (j : Z) :
  Zpos pz < 2 ^ 53 -> 0 <= j <= 1000 -> Zpos pu = 2 ^ j ->
  exists (pm : positive) (t : Z),
    0 <= t /\ Zpos pm = Zpos pz * 2 ^ t /\
    SFdiv 53 1024 (S754_finite sz pz 0) (S754_finite false pu 0)
    = S754_finite sz pm (- (t + j)).
Proof.
  intros Hz Hj Hu.
  pose proof (Zdigits2_log2 pz) as Dz.
  pose proof (Z.log2_nonneg (Zpos pz)) as Hz0.
  assert (Hz53 : Z.log2 (Zpos pz) < 53) by (apply Z.log2_lt_pow2; lia).
  set (t := 53 - Zdigits2 (Zpos pz)).
  assert (Ht : 0 <= t) by (unfold t; lia).
  assert (Hpos : 0 < Zpos pz * 2 ^ t).
  { apply Z.mul_pos_pos; [lia|]. apply Z.pow_pos_nonneg; lia. }
  exists (Z.to_pos (Zpos pz * 2 ^ t)), t.
  split; [exact Ht|]. split; [rewrite Z2Pos.id; [reflexivity | exact Hpos]|].
  assert (Hdig : Zdigits2 (Zpos (Z.to_pos (Zpos pz * 2 ^ t))) = 53).
  { rewrite Z2Pos.id by exact Hpos.
    destruct (Zpos pz * 2 ^ t) as [|pm|pm] eqn:Epm; try lia.
    rewrite Zdigits2_log2, <- Epm, Z.log2_mul_pow2 by lia.
    unfold t. rewrite Dz. lia. }
  unfold SFdiv. rewrite (div_core_pow2 pz pu j Hz Hj Hu).
  replace (54 - Zdigits2 (Zpos pz)) with (t + 1) by (unfold t; lia).
  replace (Zpos pz * 2 ^ (t + 1)) with (Zpos (Z.to_pos (Zpos pz * 2 ^ t))~0).
  2:{ rewrite Pos2Z.inj_xO, Z2Pos.id by exact Hpos.
      rewrite Z.pow_add_r by lia. change (2 ^ 1) with 2. lia. }
  rewrite round_aux_54 by (try exact Hdig; unfold t; lia).
  rewrite xorb_false_r. f_equal. unfold t. lia.
Qed.

Lemma frac_scaled (s : bool) (pm : positive) (e : Z) :
  0 <= e ->
  exists n d,
    F64.frac (S754_finite s pm (- e)) = Some (n, d) /\ 0 < d /\
    n = cond_Zopp s (Zpos pm) * (d / 2 ^ e) /\ d = 2 ^ e.
Proof.
  intros He. unfold F64.frac.
  destruct (Z.leb_spec 0 (- e)).
  - assert (e = 0) by lia. subst e. change (- 0) with 0. change (2 ^ 0) with 1.
    exists (cond_Zopp s (Zpos pm) * 1), 1. repeat split; try reflexivity.
  - exists (cond_Zopp s (Zpos pm)), (2 ^ e).
    assert (Hp : 0 < 2 ^ e) by (apply Z.pow_pos_nonneg; lia).
    rewrite Z.opp_involutive. repeat split; try reflexivity; try exact Hp.
    rewrite Z.div_same by lia. lia.
Qed.

Lemma int_truediv_pow2 (z u j : Z) :
  u = 2 ^ j -> 0 <= j <= 1000 -> - 2 ^ 53 < z < 2 ^ 53 ->
  exists q n d,
    int_truediv z u = Ok q /\ F64.frac q = Some (n, d) /\ 0 < d /\
    n * u = z * d.
Proof.
  intros Hu Hj Hz.
  assert (Hupos : 0 < u) by (subst u; apply Z.pow_pos_nonneg; lia).
  destruct u as [|pu|pu]; try lia.
  unfold int_truediv. change (Zpos pu =? 0) with false. cbv iota.
  destruct z as [|pz|pz].
  - exists (S754_zero false), 0, 1. repeat split; reflexivity.
  - destruct (div_pow2 false pz pu j ltac:(lia) Hj Hu) as (pm & t & Ht & Hpm & Hdiv).
    change (F64.div (F64.exact false (Zpos pz)) (F64.exact false (Zpos pu)))
      with (SFdiv 53 1024 (S754_finite false pz 0) (S754_finite false pu 0)).
    rewrite Hdiv. cbn [F64.is_finite].
    destruct (frac_scaled false pm (t + j) ltac:(lia)) as (n & d & Hf & Hd & Hn & Hd2).
    exists (S754_finite false pm (- (t + j))), n, d.
    repeat split; try assumption.
    rewrite Hn, Hd2, Z.div_same by lia. cbn [cond_Zopp].
    rewrite Hpm, Hu, Z.pow_add_r by lia. ring.
  - destruct (div_pow2 true pz pu j ltac:(lia) Hj Hu) as (pm & t & Ht & Hpm & Hdiv).
    change (F64.div (F64.exact false (Zneg pz)) (F64.exact false (Zpos pu)))
      with (SFdiv 53 1024 (S754_finite true pz 0) (S754_finite false pu 0)).
    rewrite Hdiv. cbn [F64.is_finite].
    destruct (frac_scaled true pm (t + j) ltac:(lia)) as (n & d & Hf & Hd & Hn & Hd2).
    exists (S754_finite true pm (- (t + j))), n, d.
    repeat split; try assumption.
    rewrite Hn, Hd2, Z.div_same by lia. cbn [cond_Zopp].
    rewrite Hpm, Hu, Z.pow_add_r by lia.
    change (Zneg pz) with (- Zpos pz). ring.
Qed.

(** X18: when the alignment unit is a power of two [2^j] with [j <= 1000]
    (8 and 64 are), the rounder returns on every integer value below [2^53]
    in absolute value, and what it returns is the positive multiple of the
    unit nearest to the value. *)
Theorem round_to_nearest_multiple_power_of_two :
  forall (cfg : args) (j z : Z),
    aspect_bucket_alignment cfg = 2 ^ j ->
    0 <= j <= 1000 ->
    - 2 ^ 53 < z < 2 ^ 53 ->
    exists out,
      _round_to_nearest_multiple cfg (PyInt z) = Ok out /\
      aligned cfg out /\
      forall k, 0 < k ->
        Z.abs (out - z) <= Z.abs (k * aspect_bucket_alignment cfg - z).
Proof.
  intros cfg j z Hu Hj Hz.
  assert (Hupos : 0 < aspect_bucket_alignment cfg).
  { rewrite Hu. apply Z.pow_pos_nonneg; lia. }
  destruct (int_truediv_pow2 z (aspect_bucket_alignment cfg) j Hu Hj Hz)
    as (q & n & d & Hq & Hf & Hd & Hex).
  assert (Hr : py_round q = Ok (F64.rne_div n d)).
  { unfold py_round. rewrite Hf. destruct q; try discriminate Hf; reflexivity. }
  assert (Hout : _round_to_nearest_multiple cfg (PyInt z)
                 = Ok (Z.max (F64.rne_div n d * aspect_bucket_alignment cfg)
                         (aspect_bucket_alignment cfg))).
  { unfold _round_to_nearest_multiple, py_truediv. rewrite Hq. cbn [res_bind].
    rewrite Hr. reflexivity. }
  eexists. split; [exact Hout|]. split.
  - exact (proj1 (round_to_nearest_multiple_aligned cfg _ _ Hupos Hout)).
  - intros k Hk.
    remember (aspect_bucket_alignment cfg) as u.
    remember (Z.max (F64.rne_div n d * u) u) as out.
    pose proof (clamp_nearest n d (F64.rne_div n d) u k Hd Hupos Hk
                  (rne_div_bounds n d Hd)) as Hnear.
    rewrite <- Heqout in Hnear.
    replace (out * d - n * u) with (d * (out - z)) in Hnear by (rewrite Hex; ring).
    replace (k * u * d - n * u) with (d * (k * u - z)) in Hnear by (rewrite Hex; ring).
    rewrite !Z.abs_mul, (Z.abs_eq d) in Hnear by lia.
    apply Z.mul_le_mono_pos_l in Hnear; assumption.
Qed.

(** Witness of X18: 1000 on the 64-pixel grid, [64 = 2^6]. *)
Lemma round_to_nearest_multiple_power_of_two_witness :
  exists out,
    _round_to_nearest_multiple args64 (PyInt 1000) = Ok out /\
    aligned args64 out /\
    forall k, 0 < k ->
      Z.abs (out - 1000) <= Z.abs (k * aspect_bucket_alignment args64 - 1000).
Proof.
  apply (round_to_nearest_multiple_power_of_two args64 6 1000).
  - reflexivity.
  - lia.
  - lia.
Defined.

(** ** Integer limits of the oversize check

    The float of an integer below [2^53] is exact, and so is its product
    with 1e6 when that is below [2^53]. *)

Lemma shr_1_even (a : Z) : 0 < a -> shr_1 (exact_record (a * 2)) = exact_record a.
Proof.
  intros Ha. destruct a as [|p|p]; try lia.
  change (Zpos p * 2) with (Zpos (p * 2)). rewrite Pos.mul_comm. reflexivity.
Qed.

Lemma iter_shr_1_exact (n : positive) :
  forall a, 0 < a ->
    iter_pos shr_1 n (exact_record (a * 2 ^ Zpos n)) = exact_record a.
Proof.
  induction n as [n IH|n IH|]; intros a Ha.
  - assert (Hp : 0 < 2 ^ Zpos n) by (apply Z.pow_pos_nonneg; lia).
    cbn [iter_pos].
    replace (a * 2 ^ Zpos n~1) with (a * 2 ^ Zpos n * 2 ^ Zpos n * 2).
    2:{ replace (Zpos n~1) with (Zpos n + Zpos n + 1) by lia.
        rewrite !Z.pow_add_r by lia. change (2 ^ 1) with 2. ring. }
    rewrite shr_1_even by nia. rewrite IH by nia. apply IH. exact Ha.
  - assert (Hp : 0 < 2 ^ Zpos n) by (apply Z.pow_pos_nonneg; lia).
    cbn [iter_pos].
    replace (a * 2 ^ Zpos n~0) with (a * 2 ^ Zpos n * 2 ^ Zpos n).
    2:{ replace (Zpos n~0) with (Zpos n + Zpos n) by lia.
        rewrite !Z.pow_add_r by lia. ring. }
    rewrite IH by nia. apply IH. exact Ha.
  - cbn [iter_pos]. change (2 ^ 1) with 2. apply shr_1_even. exact Ha.
Qed.

Lemma round_aux_shift (sx : bool) (p : positive) (n e : Z) :
  Zdigits2 (Zpos p) = 53 -> 0 <= n -> -1074 <= e + n <= 971 ->
  binary_round_aux 53 1024 sx (Zpos p * 2 ^ n) e loc_Exact
  = S754_finite sx p (e + n).
Proof.
  intros Hd Hn He.
  destruct n as [|pn|pn]; try lia.
  - change (2 ^ 0) with 1. rewrite Z.mul_1_r, Z.add_0_r.
    apply round_aux_53; [exact Hd | lia].
  - assert (Hp : 0 < Zpos p * 2 ^ Zpos pn).
    { apply Z.mul_pos_pos; [lia|]. apply Z.pow_pos_nonneg; lia. }
    assert (Hd' : Zdigits2 (Zpos p * 2 ^ Zpos pn) = 53 + Zpos pn).
    { destruct (Zpos p * 2 ^ Zpos pn) as [|q|q] eqn:E; try lia.
      rewrite Zdigits2_log2, <- E, Z.log2_mul_pow2 by lia.
      rewrite Zdigits2_log2 in Hd. lia. }
    assert (Hf : fexp 53 1024 (Zdigits2 (Zpos p) + (e + Zpos pn)) = e + Zpos pn).
    { rewrite Hd. unfold fexp, emin. lia. }
    unfold binary_round_aux.
    assert (Hs : shr_fexp 53 1024 (Zpos p * 2 ^ Zpos pn) e loc_Exact
                 = (exact_record (Zpos p), e + Zpos pn)).
    { unfold shr_fexp. rewrite Hd'.
      replace (fexp 53 1024 (53 + Zpos pn + e) - e) with (Zpos pn)
        by (unfold fexp, emin; lia).
      unfold shr. change (shr_record_of_loc (Zpos p * 2 ^ Zpos pn) loc_Exact)
        with (exact_record (Zpos p * 2 ^ Zpos pn)).
      rewrite iter_shr_1_exact by lia. reflexivity. }
    rewrite Hs. cbn [exact_record shr_m loc_of_shr_record round_nearest_even].
    rewrite (shr_fexp_none (Zpos p) (e + Zpos pn) loc_Exact Hf).
    cbn [shr_record_of_loc shr_m].
    destruct (Z.leb_spec (e + Zpos pn) (1024 - 53)); [reflexivity | lia].
Qed.

Lemma iter_xO_pow2 (p d : positive) :
  Zpos (Pos.iter xO p d) = Zpos p * 2 ^ Zpos d.
Proof.
  induction d as [|d IH] using Pos.peano_ind.
  - simpl. lia.
  - rewrite Pos.iter_succ, Pos2Z.inj_xO, IH, Pos2Z.inj_succ, Z.pow_succ_r by lia.
    ring.
Qed.

(** A positive integer below [2^53] as a 53-bit mantissa and a shift. *)
Lemma normal_form (a : Z) :
  0 < a < 2 ^ 53 ->
  exists (pm : positive) (t : Z),
    0 <= t <= 52 /\ Zpos pm = a * 2 ^ t /\ Zdigits2 (Zpos pm) = 53 /\
    t = 53 - Zdigits2 a.
Proof.
  intros Ha. destruct a as [|pa|pa]; try lia.
  pose proof (Zdigits2_log2 pa) as Da.
  pose proof (Z.log2_nonneg (Zpos pa)) as H0.
  assert (H53 : Z.log2 (Zpos pa) < 53) by (apply Z.log2_lt_pow2; lia).
  set (t := 53 - Zdigits2 (Zpos pa)).
  assert (Hpos : 0 < Zpos pa * 2 ^ t).
  { apply Z.mul_pos_pos; [lia|]. apply Z.pow_pos_nonneg; unfold t; lia. }
  exists (Z.to_pos (Zpos pa * 2 ^ t)), t.
  rewrite Z2Pos.id by exact Hpos.
  split; [unfold t; lia|]. split; [reflexivity|]. split; [|reflexivity].
  destruct (Zpos pa * 2 ^ t) as [|pm|pm] eqn:Epm; try lia.
  rewrite Zdigits2_log2, <- Epm, Z.log2_mul_pow2 by (unfold t; lia).
  unfold t. lia.
Qed.

Lemma of_Z_exact (pl : positive) :
  Zpos pl < 2 ^ 53 ->
  exists (pm : positive) (t : Z),
    0 <= t <= 52 /\ Zpos pm = Zpos pl * 2 ^ t /\ Zdigits2 (Zpos pm) = 53 /\
    F64.of_Z (Zpos pl) = S754_finite false pm (- t).
Proof.
  intros Hl.
  destruct (normal_form (Zpos pl) ltac:(lia)) as (pm & t & Ht & Hpm & Hd & Et).
  exists pm, t. split; [exact Ht|]. split; [exact Hpm|]. split; [exact Hd|].
  unfold F64.of_Z, binary_normalize, binary_round, F64.prec, F64.emax.
  change (Zpos (digits2_pos pl)) with (Zdigits2 (Zpos pl)).
  rewrite Z.add_0_r.
  replace (fexp 53 1024 (Zdigits2 (Zpos pl))) with (- t)
    by (unfold fexp, emin; lia).
  unfold shl_align. rewrite Z.sub_0_r.
  destruct t as [|pt|pt]; try lia.
  - change (- 0) with 0. cbv iota.
    assert (pm = pl) by (change (2 ^ 0) with 1 in Hpm; lia). subst pm.
    apply round_aux_53; [exact Hd | lia].
  - change (- Zpos pt) with (Zneg pt). cbv iota.
    assert (Pos.iter xO pl pt = pm).
    { apply Pos2Z.inj. rewrite iter_xO_pow2. symmetry. exact Hpm. }
    subst pm. apply round_aux_53; [exact Hd | lia].
Qed.

Lemma mul_million_exact (l : Z) :
  0 < l -> l * 10 ^ 6 < 2 ^ 53 ->
  exists (pL : positive) (t : Z),
    0 <= t /\ Zpos pL = l * 10 ^ 6 * 2 ^ t /\
    py_mul_float (PyInt l) F64.million = Ok (S754_finite false pL (- t)).
Proof.
  intros Hl HL.
  destruct l as [|pl|pl]; try lia.
  destruct (of_Z_exact pl ltac:(lia)) as (pm & t & Ht & Hpm & Hd & Hof).
  destruct (normal_form (Zpos pl * 10 ^ 6) ltac:(lia))
    as (pL & tL & HtL & HpL & HdL & EtL).
  exists pL, tL. split; [lia|]. split; [exact HpL|].
  unfold py_mul_float, to_float, float_of_int. rewrite Hof.
  cbn [F64.is_finite res_bind]. f_equal.
  change F64.million with (S754_finite false 8589934592000000 (-33)).
  unfold F64.mul, SFmul, F64.prec, F64.emax. cbn [xorb].
  assert (Hlog : Zdigits2 (Zpos pl) <= Zdigits2 (Zpos pl * 10 ^ 6)).
  { change (Zpos pl * 10 ^ 6) with (Zpos (pl * 1000000)).
    rewrite !Zdigits2_log2. apply Z.add_le_mono_r. apply Z.log2_le_mono. lia. }
  assert (Et : t = 53 - Zdigits2 (Zpos pl)).
  { pose proof (Zdigits2_log2 pm) as Dm. rewrite Hpm in Dm at 2.
    rewrite Z.log2_mul_pow2 in Dm by lia.
    rewrite Zdigits2_log2. lia. }
  replace (Zpos (pm * 8589934592000000)) with (Zpos pL * 2 ^ (t + 33 - tL)).
  2:{ rewrite Pos2Z.inj_mul, Hpm, HpL.
      change (Zpos 8589934592000000) with (10 ^ 6 * 2 ^ 33).
      replace (2 ^ t) with (2 ^ tL * 2 ^ (t - tL))
        by (rewrite <- Z.pow_add_r by lia; f_equal; lia).
      replace (2 ^ (t + 33 - tL)) with (2 ^ (t - tL) * 2 ^ 33)
        by (rewrite <- Z.pow_add_r by lia; f_equal; lia).
      ring. }
  rewrite round_aux_shift by (try exact HdL; lia).
  f_equal. lia.
Qed.

Lemma int_gt_int (z l : Z) : int_gt z (PyInt l) = (l <? z).
Proof.
  unfold int_gt, int_compare.
  destruct (Z.compare_spec z l); destruct (Z.ltb_spec l z);
    first [reflexivity | lia].
Qed.

(** X19: with an integer limit [l] the oversize check is an exact integer
    comparison: in mode "pixel" the limit against each dimension, and in mode
    "area", for [0 <= l] and [l * 10^6 < 2^53], the number [l * 10^6] against
    width times height. *)
Theorem is_image_too_large_integer_limit :
  forall w h l : Z,
    is_image_too_large (w, h) (PyInt l) "pixel" = Ok ((l <? w) || (l <? h)) /\
    (0 <= l -> l * 10 ^ 6 < 2 ^ 53 ->
     is_image_too_large (w, h) (PyInt l) "area" = Ok (l * 10 ^ 6 <? w * h)).
Proof.
  intros w h l. split.
  - unfold is_image_too_large. cbn [String.eqb Ascii.eqb Bool.eqb fst snd].
    rewrite !int_gt_int. reflexivity.
  - intros Hl HL. unfold is_image_too_large.
    change (String.eqb "area" "pixel") with false.
    change (String.eqb "area" "area") with true. cbn [fst snd].
    destruct (Z.eq_dec l 0) as [->|Hnz].
    + change (py_mul_float (PyInt 0) F64.million) with (Ok (S754_zero false)).
      cbn [res_bind]. f_equal.
      unfold int_gt, int_compare, F64.Zcompare, F64.frac.
      change (0 * 10 ^ 6) with 0.
      destruct (Z.compare_spec (w * h * 1) 0); destruct (Z.ltb_spec 0 (w * h));
        first [reflexivity | lia].
    + destruct (mul_million_exact l ltac:(lia) HL) as (pL & t & Ht & HpL & Hmul).
      rewrite Hmul. cbn [res_bind]. f_equal.
      destruct (frac_scaled false pL t Ht) as (n & d & Hf & Hd & Hn & Hd2).
      unfold int_gt, int_compare, F64.Zcompare. rewrite Hf.
      assert (Hnd : n = l * 10 ^ 6 * d).
      { rewrite Hn, Hd2, Z.div_same by lia. cbn [cond_Zopp].
        rewrite HpL. ring. }
      destruct (Z.compare_spec (w * h * d) n);
        destruct (Z.ltb_spec (l * 10 ^ 6) (w * h));
        first [reflexivity | nia].
Qed.

(** Witness of X19: (5000, 3000) against 10 megapixels. *)
Lemma is_image_too_large_integer_limit_witness :
  is_image_too_large (5000, 3000) (PyInt 10) "area"
  = Ok (10 * 10 ^ 6 <? 5000 * 3000).
Proof.
  apply (proj2 (is_image_too_large_integer_limit 5000 3000 10)); lia.
Defined.
